(** * A shallow embedding of the @expo/server request dispatcher

    Source: packages/@expo/server/src/index.ts.

    [createRequestHandler] closes over one mutable variable, the cached
    [routesManifest], and returns the asynchronous [handler].  The handler
    calls capabilities that are injected through the options object
    ([getRoutesManifest], [getHtml], [getApiRoute],
    [logApiRouteExecutionError]) and whatever handler function the resolved
    API module exposes.  Each of them may have effects of its own and may
    raise, so the embedding threads an explicit store through the code and
    represents a JavaScript completion (normal or abrupt) as a sum. *)

From stdpp Require Import base option list strings gmap fin_maps.
From Stdlib Require Import ZArith Ascii.

Local Open Scope string_scope.
Local Open Scope Z_scope.
Local Open Scope list_scope.

(** ** Platform values *)

(** [URLSearchParams]: an ordered list of name/value pairs, duplicates
    allowed. *)
Definition URLSearchParams : Type := list (string * string).

Definition has_name (name : string) (p : string * string) : bool :=
  String.eqb (fst p) name.

(** [URLSearchParams.prototype.set]: the first pair of that name takes the
    value and the other pairs of that name are removed; without such a pair
    the new pair is appended. *)
Fixpoint searchParams_set (l : URLSearchParams) (name value : string)
  : URLSearchParams :=
  match l with
  | [] => [(name, value)]
  | p :: rest =>
      if has_name name p
      then (name, value) :: List.filter (fun q => negb (has_name name q)) rest
      else p :: searchParams_set rest name value
  end.

(** [URLSearchParams.prototype.get]: the value of the first pair of that
    name. *)
Definition searchParams_get (l : URLSearchParams) (name : string)
  : option string :=
  snd <$> List.find (has_name name) l.

(** The parts of a parsed [URL] (and of [ExpoURL], which extends it) that the
    dispatcher reads or writes. *)
Record URL : Type := mkURL {
  pathname : string;
  searchParams : URLSearchParams
}.

(** The result of [RegExp.prototype.exec]: [null], or a match whose [groups]
    is [undefined] (a pattern without named groups) or the entries of the
    groups object in the order [Object.entries] lists them. Every named
    group of the pattern has an entry; its value is the substring it
    captured, or [undefined] ([None]) when the group took no part in the
    match. *)
Inductive ExecResult : Type :=
  | ExecNull
  | ExecMatch (groups : option (list (string * option string))).

(** A compiled pattern is represented by its [exec]; the manifest compiles its
    patterns without the global or sticky flag, so that matching does not
    depend on [lastIndex]. *)
Definition RegExp : Type := string -> ExecResult.

Definition exec (re : RegExp) (s : string) : ExecResult := re s.

(** [RegExp.prototype.test]: whether [exec] finds a match. *)
Definition test (re : RegExp) (s : string) : bool :=
  match exec re s with
  | ExecNull => false
  | ExecMatch _ => true
  end.

(** ** The data of the dispatcher *)

(** [RouteInfo<RegExp>]. *)
Record RouteInfo : Type := mkRouteInfo {
  page : string;
  file : string;
  namedRegex : RegExp;
  routeKeys : gmap string string
}.

(** [ExpoRoutesManifestV1<RegExp>]. *)
Record ExpoRoutesManifestV1 : Type := mkManifest {
  htmlRoutes : list RouteInfo;
  apiRoutes : list RouteInfo;
  notFoundRoutes : list RouteInfo
}.

(** [ExpoRequest]: [nonStandard] is the slot [request[NON_STANDARD_SYMBOL]],
    which holds the parsed [ExpoURL] once the request was augmented. *)
Record ExpoRequest : Type := mkRequest {
  method : string;
  url : string;
  nonStandard : option URL
}.

(** [new ExpoResponse(body, { status, headers })]. *)
Record ExpoResponse : Type := mkResponse {
  body : string;
  status : Z;
  headers : list (string * string)
}.

(** A thrown JavaScript value: an instance of [Error], or any other value. *)
Inductive Thrown : Type :=
  | ErrorInstance (message : string)
  | OtherValue (description : string).

Definition instanceof_Error (e : Thrown) : bool :=
  match e with
  | ErrorInstance _ => true
  | OtherValue _ => false
  end.

(** A completion: the value of a call that returns (of a promise that
    resolves), or the value it throws (the promise rejects with). *)
Inductive Completion (A : Type) : Type :=
  | Normal (a : A)
  | Abrupt (e : Thrown).
Arguments Normal {A} & a.
Arguments Abrupt {A} e.

(** What a route handler resolves to, and with it a dispatch: the result of
    the handler is returned through a cast that is erased at run time
    ([as ExpoResponse], under "TODO: Handle undefined"), so that it is a
    response or any other value, [undefined] for one. A response is read as
    a resolved value wherever one is expected. *)
Inductive Resolved : Type :=
  | Responded (response : ExpoResponse)
  | NotAResponse (value : string).

Coercion Responded : ExpoResponse >-> Resolved.

(** [Record<string, string>], the parameters handed to an API handler: the
    properties of the object itself. At run time a property may hold
    [undefined] ([Some None] under its name), which is not the same as
    having no such property ([None]). *)
Abbreviation Params := (gmap string (option string)).

(** The value [getHtml] resolves to: [string | ExpoResponse | null]. *)
Inductive HtmlContents : Type :=
  | HtmlNull
  | HtmlString (s : string)
  | HtmlResponse (r : ExpoResponse).

(** The calls that leave the dispatcher, with their arguments. *)
Inductive Event : Type :=
  | CallGetInternalRoutesManifest (distFolder : string)
  | CallGetRoutesManifest (distFolder : string)
  | CallGetHtml (request : ExpoRequest) (route : RouteInfo)
  | CallGetApiRoute (route : RouteInfo)
  | CallRouteHandler (route : RouteInfo) (request : ExpoRequest)
      (params : Params)
  | CallLogApiRouteExecutionError (error : Thrown).

Section Effects.

(** The state of everything outside the dispatcher that a capability can
    read or change: the file system, the state of the handler modules,
    the console. *)
Context {World : Type}.

(** A capability: a call that runs in the outside world. *)
Definition Cap (A : Type) : Type := World -> Completion A * World.

(** A handler function of an API module, [(request, params) => response];
    nothing checks that what it resolves to is a response. *)
Definition RouteHandler : Type := ExpoRequest -> Params -> Cap Resolved.

(** The value [getApiRoute] resolves to (typed [any]): [null], a response,
    or a module, an object whose properties are looked up by the method
    name. [exports] holds the properties as the lookup finds them, the
    inherited ones included; a property that is missing or falsy is no
    entry of [exports]. *)
Inductive ApiRoute : Type :=
  | ApiNull
  | ApiResponse (r : ExpoResponse)
  | ApiModule (exports : gmap string RouteHandler).

(** The options object of [createRequestHandler], with the defaults
    already filled in; [getInternalRoutesManifest] is the optional
    [getRoutesManifest] member. *)
Record Options : Type := mkOptions {
  getInternalRoutesManifest :
    option (string -> Cap (option ExpoRoutesManifestV1));
  getHtml : ExpoRequest -> RouteInfo -> Cap HtmlContents;
  getApiRoute : RouteInfo -> Cap ApiRoute;
  logApiRouteExecutionError : Thrown -> Cap unit
}.

(** The store the handler runs in: the outside world, the closure variable
    [routesManifest], and the calls made so far (kept for the statements
    only, the code never reads it). *)
Record Store : Type := mkStore {
  world : World;
  routesManifest : option ExpoRoutesManifestV1;
  calls : list Event
}.

(** ** A state and exception monad *)

Definition M (A : Type) : Type := Store -> Completion A * Store.

Definition ret {A} (a : A) : M A := fun s => (Normal a, s).

Definition bind {A B} (m : M A) (k : A -> M B) : M B :=
  fun s =>
    match m s with
    | (Normal a, s') => k a s'
    | (Abrupt e, s') => (Abrupt e, s')
    end.

(** [try { m } catch (error) { h error }]. *)
Definition try_catch {A} (m : M A) (h : Thrown -> M A) : M A :=
  fun s =>
    match m s with
    | (Normal a, s') => (Normal a, s')
    | (Abrupt e, s') => h e s'
    end.

(** A call to a capability: the call is recorded, then it runs in the
    outside world. *)
Definition call {A} (ev : Event) (c : Cap A) : M A :=
  fun s =>
    let (r, w) := c (world s) in
    (r, mkStore w (routesManifest s) (calls s ++ [ev])).

Definition read_routesManifest : M (option ExpoRoutesManifestV1) :=
  fun s => (Normal (routesManifest s), s).

Definition write_routesManifest (m : ExpoRoutesManifestV1) : M unit :=
  fun s => (Normal tt, mkStore (world s) (Some m) (calls s)).

End Effects.

Arguments Cap : clear implicits.
Arguments RouteHandler : clear implicits.
Arguments ApiRoute : clear implicits.
Arguments Options : clear implicits.
Arguments Store : clear implicits.
Arguments M : clear implicits.

Notation "'let*' x ':=' m 'in' k" := (bind m (fun x => k))
  (at level 10, x pattern, m at level 100, k at level 200).

(** The conversion of an argument of [URLSearchParams.prototype.set] to a
    string: [undefined] becomes the text of that name. *)
Definition toUSVString (value : option string) : string :=
  default "undefined" value.

(** The functions that a plain object inherits from [Object.prototype]: the
    name of the member and the name of the function. *)
Definition inheritedFunctions : list (string * string) :=
  [("constructor", "Object");
   ("__defineGetter__", "__defineGetter__");
   ("__defineSetter__", "__defineSetter__");
   ("hasOwnProperty", "hasOwnProperty");
   ("__lookupGetter__", "__lookupGetter__");
   ("__lookupSetter__", "__lookupSetter__");
   ("isPrototypeOf", "isPrototypeOf");
   ("propertyIsEnumerable", "propertyIsEnumerable");
   ("toString", "toString");
   ("valueOf", "valueOf");
   ("toLocaleString", "toLocaleString")].

(** [String(object[key])] for a key that a plain object does not hold
    itself: the text of an inherited function as Node gives it,
    ["[object Object]"] for the accessor [__proto__], which yields
    [Object.prototype], and ["undefined"] for every other key. *)
Definition inheritedKey (key : string) : string :=
  if String.eqb key "__proto__" then "[object Object]"
  else
    match List.find (fun member => String.eqb (fst member) key)
            inheritedFunctions with
    | Some member => "function " +:+ snd member +:+ "() { [native code] }"
    | None => "undefined"
    end.

(** [params[name] = value] on the plain object that [params] is. The name
    [__proto__] is that of an accessor of [Object.prototype], whose setter
    ignores a value that is no object: the assignment adds no property.
    Under every other name the object gets the property, or a new value
    for it. *)
Definition assign (params : Params) (name : string) (value : option string)
  : Params :=
  if String.eqb name "__proto__" then params else <[name := value]> params.

Section Dispatcher.

Context {World : Type}.

(** ** The code *)

(** [new URL(url, 'http://expo.dev')] and [new ExpoURL(url)].  The url of
    a request is the serialisation of an absolute URL, so that parsing it
    succeeds and the base is not used. *)
Variable parseURL : string -> URL.

(** The exported [getRoutesManifest]: reads and parses
    [_expo/routes.json] below the folder and compiles the patterns. *)
Variable getRoutesManifest : string -> Cap World ExpoRoutesManifestV1.

Variable distFolder : string.
Variable options : Options World.

(** [config.routeKeys[key]], as both uses below read it, that is turned
    into a string: the entry of the object, or else what the object
    inherits under that name. *)
Definition namedKey_of (config : RouteInfo) (key : string) : string :=
  match routeKeys config !! key with
  | Some name => name
  | None => inheritedKey key
  end.

(** The body of the loop over [Object.entries(match.groups)]: the value goes
    into the query through [searchParams.set], which turns it into a string,
    and into the params, by assignment, as it is. *)
Definition setParam (config : RouteInfo) (acc : URL * Params)
    (entry : string * option string) : URL * Params :=
  let namedKey := namedKey_of config (fst entry) in
  (mkURL (pathname (fst acc))
         (searchParams_set (searchParams (fst acc)) namedKey
            (toUSVString (snd entry))),
   assign (snd acc) namedKey (snd entry)).

(** [updateRequestWithConfig]: the request with its slot set, and the
    params. *)
Definition updateRequestWithConfig (request : ExpoRequest)
    (config : RouteInfo) : ExpoRequest * Params :=
  let expoUrl := parseURL (url request) in
  let result :=
    match exec (namedRegex config) (pathname expoUrl) with
    | ExecMatch (Some groups) =>
        fold_left (setParam config) groups (expoUrl, ∅)
    | _ => (expoUrl, ∅)
    end in
  (mkRequest (method request) (url request) (Some (fst result)),
   snd result).

Definition text_plain : list (string * string) :=
  [("Content-Type", "text/plain")].
Definition text_html : list (string * string) :=
  [("Content-Type", "text/html")].

Definition isGetOrHead (request : ExpoRequest) : bool :=
  String.eqb (method request) "GET" || String.eqb (method request) "HEAD".

(** [!contents]: [null] and the empty string are falsy. *)
Definition falsy (contents : HtmlContents) : bool :=
  match contents with
  | HtmlNull => true
  | HtmlString s => String.eqb s ""
  | HtmlResponse _ => false
  end.

(** The body shared by the loops over [htmlRoutes] and [notFoundRoutes],
    which differ in [okStatus] only, the status of the synthesized html
    response. *)
Definition serveHtml (okStatus : Z) (request : ExpoRequest)
    (route : RouteInfo) : M World Resolved :=
  let request' := fst (updateRequestWithConfig request route) in
  let* contents :=
    call (CallGetHtml request' route) (getHtml options request' route) in
  if falsy contents
  then ret (Responded (mkResponse "Not found" 404 text_plain))
  else
    match contents with
    | HtmlResponse r => ret (Responded r)
    | HtmlString s => ret (Responded (mkResponse s okStatus text_html))
    | HtmlNull => ret (Responded (mkResponse "" okStatus text_html))
    end.

(** [for (const route of routes)] with its [continue] and [return]: [None]
    when the loop ends without returning. *)
Fixpoint htmlLoop (okStatus : Z) (request : ExpoRequest)
    (sanitizedPathname : string) (routes : list RouteInfo)
  : M World (option Resolved) :=
  match routes with
  | [] => ret None
  | route :: rest =>
      if negb (test (namedRegex route) sanitizedPathname)
      then htmlLoop okStatus request sanitizedPathname rest
      else let* r := serveHtml okStatus request route in ret (Some r)
  end.

(** [func?.[request.method]]. *)
Definition routeHandler_of (func : ApiRoute World) (request : ExpoRequest)
  : option (RouteHandler World) :=
  match func with
  | ApiModule exports => exports !! method request
  | _ => None
  end.

(** The body of the loop over [apiRoutes]; what the handler resolves to is
    returned as it is. *)
Definition serveApi (request : ExpoRequest) (route : RouteInfo)
  : M World Resolved :=
  let* func := call (CallGetApiRoute route) (getApiRoute options route) in
  match func with
  | ApiResponse r => ret (Responded r)
  | _ =>
      match routeHandler_of func request with
      | None =>
          ret (Responded (mkResponse "Method not allowed" 405 text_plain))
      | Some routeHandler =>
          let request' := fst (updateRequestWithConfig request route) in
          let params := snd (updateRequestWithConfig request route) in
          try_catch
            (call (CallRouteHandler route request' params)
                  (routeHandler request' params))
            (fun error =>
               let* _ :=
                 if instanceof_Error error
                 then call (CallLogApiRouteExecutionError error)
                           (logApiRouteExecutionError options error)
                 else ret tt in
               ret (Responded
                      (mkResponse "Internal server error" 500 text_plain)))
      end
  end.

Fixpoint apiLoop (request : ExpoRequest) (sanitizedPathname : string)
    (routes : list RouteInfo) : M World (option Resolved) :=
  match routes with
  | [] => ret None
  | route :: rest =>
      if negb (test (namedRegex route) sanitizedPathname)
      then apiLoop request sanitizedPathname rest
      else let* r := serveApi request route in ret (Some r)
  end.

(** The first statement of [handler]: [inl] is the early return, [inr] the
    manifest that [routesManifest] holds from then on. *)
Definition acquireManifest
  : M World (ExpoResponse + ExpoRoutesManifestV1) :=
  match getInternalRoutesManifest options with
  | Some supplier =>
      let* manifest :=
        call (CallGetInternalRoutesManifest distFolder)
             (supplier distFolder) in
      match manifest with
      | Some manifest =>
          let* _ := write_routesManifest manifest in ret (inr manifest)
      | None =>
          ret (inl (mkResponse "No routes manifest found" 404 text_plain))
      end
  | None =>
      let* cached := read_routesManifest in
      match cached with
      | Some manifest => ret (inr manifest)
      | None =>
          let* manifest :=
            call (CallGetRoutesManifest distFolder)
                 (getRoutesManifest distFolder) in
          let* _ := write_routesManifest manifest in
          ret (inr manifest)
      end
  end.

(** The rest of [handler], from [const url = new URL(...)] on; one
    dispatch runs without another one in between, so that every read of
    [routesManifest] gives the manifest acquired above. *)
Definition dispatchRoutes (manifest : ExpoRoutesManifestV1)
    (request : ExpoRequest) : M World Resolved :=
  let sanitizedPathname := pathname (parseURL (url request)) in
  let* html :=
    if isGetOrHead request
    then htmlLoop 200 request sanitizedPathname (htmlRoutes manifest)
    else ret None in
  match html with
  | Some r => ret r
  | None =>
      let* api := apiLoop request sanitizedPathname (apiRoutes manifest) in
      match api with
      | Some r => ret r
      | None =>
          let* notFound :=
            htmlLoop 404 request sanitizedPathname
                     (notFoundRoutes manifest) in
          match notFound with
          | Some r => ret r
          | None => ret (Responded (mkResponse "Not found" 404 text_plain))
          end
      end
  end.

(** [handler], the function [createRequestHandler] returns. *)
Definition handler (request : ExpoRequest) : M World Resolved :=
  let* acquired := acquireManifest in
  match acquired with
  | inl response => ret (Responded response)
  | inr manifest => dispatchRoutes manifest request
  end.

End Dispatcher.

(** [createRequestHandler(distFolder, options)]: the handler, to be run from
    a store whose [routesManifest] is [None] at first and that is then
    threaded from one request to the next. *)
Definition createRequestHandler {World : Type} (parseURL : string -> URL)
    (getRoutesManifest : string -> Cap World ExpoRoutesManifestV1)
    (distFolder : string) (options : Options World)
  : ExpoRequest -> M World Resolved :=
  handler parseURL getRoutesManifest distFolder options.

(** ** The manifest file and the default capabilities *)

(** A route of [_expo/routes.json] as [JSON.parse] gives it: the pattern is
    still its source text. *)
Record RawRouteInfo : Type := mkRawRouteInfo {
  rawPage : string;
  rawFile : string;
  rawNamedRegex : string;
  rawRouteKeys : gmap string string
}.

(** The parsed file. Nothing validates it, so that each of the three arrays
    may be missing ([undefined]); an array that is there holds routes, as the
    cast to [ExpoRoutesManifestV1] says. *)
Record RawManifest : Type := mkRawManifest {
  rawHtmlRoutes : option (list RawRouteInfo);
  rawApiRoutes : option (list RawRouteInfo);
  rawNotFoundRoutes : option (list RawRouteInfo)
}.

(** What reading [map] of [undefined] throws. *)
Definition TypeError_map : Thrown :=
  ErrorInstance "Cannot read properties of undefined (reading 'map')".

(** [s] ends with [suffix]. *)
Fixpoint endsWith (suffix s : string) : bool :=
  String.eqb s suffix
  || match s with
     | EmptyString => false
     | String _ rest => endsWith suffix rest
     end.

(** [/\.[cj]s$/.test(filePath)]: a dot, one of [c] and [j], an [s], and the
    end of the input. *)
Definition isScript (filePath : string) : bool :=
  endsWith ".cs" filePath || endsWith ".js" filePath.

Section Node.

Context {World : Type}.

(** [JSON.parse(fs.readFileSync(path, 'utf-8'))]. *)
Variable readJSON : string -> Cap World RawManifest.

(** [new RegExp(source)], which throws on a source that is no pattern. *)
Variable newRegExp : string -> Completion RegExp.

(** [path.join], [fs.existsSync], [fs.readFileSync(path, 'utf-8')],
    [require], [import()] and [console.error]. *)
Variable path_join : string -> string -> string.
Variable existsSync : string -> World -> bool.
Variable readFileSync : string -> Cap World string.
Variable requireModule : string -> Cap World (ApiRoute World).
Variable importModule : string -> Cap World (ApiRoute World).
Variable console_error : Thrown -> Cap World unit.

(** [{ ...value, namedRegex: new RegExp(value.namedRegex) }]. *)
Definition compileRoute (value : RawRouteInfo) : Completion RouteInfo :=
  match newRegExp (rawNamedRegex value) with
  | Normal namedRegex =>
      Normal (mkRouteInfo (rawPage value) (rawFile value) namedRegex
                (rawRouteKeys value))
  | Abrupt e => Abrupt e
  end.

(** [routes.map(compile)] on an array: the first element that throws ends
    the map. *)
Fixpoint mapCompile (values : list RawRouteInfo)
  : Completion (list RouteInfo) :=
  match values with
  | [] => Normal []
  | value :: rest =>
      match compileRoute value with
      | Normal route =>
          match mapCompile rest with
          | Normal routes => Normal (route :: routes)
          | Abrupt e => Abrupt e
          end
      | Abrupt e => Abrupt e
      end
  end.

(** [routes.map(...)], where [routes] may be [undefined]. *)
Definition compileRoutes (routes : option (list RawRouteInfo))
  : Completion (list RouteInfo) :=
  match routes with
  | Some values => mapCompile values
  | None => Abrupt TypeError_map
  end.

(** [getProcessedManifest]: the members of the object literal are evaluated
    in the order they are written, notFoundRoutes first. *)
Definition getProcessedManifest (path : string)
  : Cap World ExpoRoutesManifestV1 :=
  fun w =>
    match readJSON path w with
    | (Normal routesManifest, w') =>
        (match compileRoutes (rawNotFoundRoutes routesManifest) with
         | Normal notFound =>
             match compileRoutes (rawApiRoutes routesManifest) with
             | Normal api =>
                 match compileRoutes (rawHtmlRoutes routesManifest) with
                 | Normal html => Normal (mkManifest html api notFound)
                 | Abrupt e => Abrupt e
                 end
             | Abrupt e => Abrupt e
             end
         | Abrupt e => Abrupt e
         end, w')
    | (Abrupt e, w') => (Abrupt e, w')
    end.

(** The exported [getRoutesManifest]. *)
Definition getRoutesManifest (distFolder : string)
  : Cap World ExpoRoutesManifestV1 :=
  getProcessedManifest (path_join distFolder "_expo/routes.json").

(** The default of [getHtml]: serve a static file. *)
Definition defaultGetHtml (distFolder : string)
  : ExpoRequest -> RouteInfo -> Cap World HtmlContents :=
  fun request route w =>
    let filePath := path_join distFolder (page route +:+ ".html") in
    if negb (existsSync filePath w)
    then (Normal HtmlNull, w)
    else
      match readFileSync filePath w with
      | (Normal contents, w') => (Normal (HtmlString contents), w')
      | (Abrupt e, w') => (Abrupt e, w')
      end.

(** The default of [getApiRoute]. *)
Definition defaultGetApiRoute (distFolder : string)
  : RouteInfo -> Cap World (ApiRoute World) :=
  fun route w =>
    let filePath := path_join distFolder (file route) in
    if negb (existsSync filePath w)
    then (Normal ApiNull, w)
    else if isScript filePath
    then requireModule filePath w
    else importModule filePath w.

(** The default of [logApiRouteExecutionError]. *)
Definition defaultLogApiRouteExecutionError : Thrown -> Cap World unit :=
  fun error => console_error error.

(** The options with every default filled in. *)
Definition defaultOptions (distFolder : string)
    (supplier : option (string -> Cap World (option ExpoRoutesManifestV1)))
  : Options World :=
  mkOptions supplier (defaultGetHtml distFolder)
    (defaultGetApiRoute distFolder) defaultLogApiRouteExecutionError.

(** The handler of an application that injects nothing but, possibly, a
    manifest supplier. *)
Definition defaultHandler (parseURL : string -> URL) (distFolder : string)
    (supplier : option (string -> Cap World (option ExpoRoutesManifestV1)))
  : ExpoRequest -> M World Resolved :=
  createRequestHandler parseURL getRoutesManifest distFolder
    (defaultOptions distFolder supplier).

(** [route] is [value] with its pattern compiled. *)
Definition compiledFrom (route : RouteInfo) (value : RawRouteInfo) : Prop :=
  page route = rawPage value
  ∧ file route = rawFile value
  ∧ routeKeys route = rawRouteKeys value
  ∧ newRegExp (rawNamedRegex value) = Normal (namedRegex route).

(** The array is there and every pattern in it compiles. *)
Definition allCompile (routes : option (list RawRouteInfo)) : Prop :=
  ∃ values,
    routes = Some values
    ∧ Forall (fun value =>
                ∃ namedRegex,
                  newRegExp (rawNamedRegex value) = Normal namedRegex)
        values.

End Node.

(** ** Notions the statements use *)

(** The three sequences of the manifest. *)
Inductive Category : Type := Html | Api | NotFound.

Definition routesOf (category : Category) (manifest : ExpoRoutesManifestV1)
  : list RouteInfo :=
  match category with
  | Html => htmlRoutes manifest
  | Api => apiRoutes manifest
  | NotFound => notFoundRoutes manifest
  end.

Definition withRoutes (category : Category) (routes : list RouteInfo)
    (manifest : ExpoRoutesManifestV1) : ExpoRoutesManifestV1 :=
  match category with
  | Html => mkManifest routes (apiRoutes manifest) (notFoundRoutes manifest)
  | Api => mkManifest (htmlRoutes manifest) routes (notFoundRoutes manifest)
  | NotFound => mkManifest (htmlRoutes manifest) (apiRoutes manifest) routes
  end.

Definition matches (path : string) (route : RouteInfo) : bool :=
  test (namedRegex route) path.

(** The first descriptor of a sequence whose pattern matches the path. *)
Definition firstMatch (path : string) (routes : list RouteInfo)
  : option RouteInfo :=
  List.find (matches path) routes.

(** The descriptor a call carries. *)
Definition routeOf (ev : Event) : option RouteInfo :=
  match ev with
  | CallGetHtml _ route => Some route
  | CallGetApiRoute route => Some route
  | CallRouteHandler route _ _ => Some route
  | _ => None
  end.

(** The errors handed to the error-reporting hook, in order. *)
Definition hookCalls (evs : list Event) : list Thrown :=
  omap (fun ev =>
          match ev with
          | CallLogApiRouteExecutionError error => Some error
          | _ => None
          end) evs.



Section Notions.

Context {World : Type}.
Variable parseURL : string -> URL.

(** The category and the descriptor a request is dispatched to: what the
    three loops of [handler] find, in their order. *)
Definition dispatched (manifest : ExpoRoutesManifestV1)
    (request : ExpoRequest) : option (Category * RouteInfo) :=
  let path := pathname (parseURL (url request)) in
  match
    (if isGetOrHead request then firstMatch path (htmlRoutes manifest)
     else None)
  with
  | Some route => Some (Html, route)
  | None =>
      match firstMatch path (apiRoutes manifest) with
      | Some route => Some (Api, route)
      | None =>
          match firstMatch path (notFoundRoutes manifest) with
          | Some route => Some (NotFound, route)
          | None => None
          end
      end
  end.

(** The call to the resolver of a dispatched descriptor. *)
Definition resolverCall (category : Category) (request : ExpoRequest)
    (route : RouteInfo) : Event :=
  match category with
  | Api => CallGetApiRoute route
  | _ => CallGetHtml (fst (updateRequestWithConfig parseURL request route))
                     route
  end.

(** The loop body that serves a descriptor of a category. *)
Definition serveRoute (options : Options World) (category : Category)
    (request : ExpoRequest) (route : RouteInfo) : M World Resolved :=
  match category with
  | Html => serveHtml parseURL options 200 request route
  | Api => serveApi parseURL options request route
  | NotFound => serveHtml parseURL options 404 request route
  end.

(** The loop over [htmlRoutes] does not return: it is skipped, or no
    pattern matches. *)
Definition htmlPasses (manifest : ExpoRoutesManifestV1)
    (request : ExpoRequest) : Prop :=
  isGetOrHead request = false ∨
  firstMatch (pathname (parseURL (url request))) (htmlRoutes manifest)
  = None.

(** The store once [getApiRoute] was called. *)
Definition afterGetApiRoute (options : Options World) (route : RouteInfo)
    (s : Store World) : Store World :=
  mkStore (snd (getApiRoute options route (world s))) (routesManifest s)
          (calls s ++ [CallGetApiRoute route]).

(** A capability that returns, whatever the state of the world. *)
Definition returns {A} (c : Cap World A) : Prop :=
  ∀ w, ∃ a w', c w = (Normal a, w').

(** A handler that resolves to a response whenever it returns, and not to
    [undefined] or to a value of another kind. *)
Definition answers (routeHandler : RouteHandler World) : Prop :=
  ∀ request params w value,
    fst (routeHandler request params w) = Normal value ->
    ∃ response, value = Responded response.

(** A capability whose completion does not depend on the state of the
    world. *)
Definition deterministic {A} (c : Cap World A) : Prop :=
  ∀ w w', fst (c w) = fst (c w').

(** A computation whose completion does not depend on the store. *)
Definition stable {A} (m : M World A) : Prop :=
  ∀ s s', fst (m s) = fst (m s').

End Notions.

(** The request a call hands over. *)
Definition requestOf (ev : Event) : option ExpoRequest :=
  match ev with
  | CallGetHtml request _ => Some request
  | CallRouteHandler _ request _ => Some request
  | _ => None
  end.

Definition isLoad (ev : Event) : bool :=
  match ev with CallGetRoutesManifest _ => true | _ => false end.

Definition isResolverCall (ev : Event) : bool :=
  match ev with
  | CallGetHtml _ _ | CallGetApiRoute _ => true
  | _ => false
  end.

Definition isHandlerCall (ev : Event) : bool :=
  match ev with CallRouteHandler _ _ _ => true | _ => false end.

(** How often the manifest file was loaded. *)
Definition loads (evs : list Event) : nat := length (List.filter isLoad evs).

(** The status of the html response a category synthesizes. *)
Definition okStatus (category : Category) : Z :=
  match category with NotFound => 404 | _ => 200 end.

Definition isManifestCall (ev : Event) : bool :=
  match ev with
  | CallGetInternalRoutesManifest _ | CallGetRoutesManifest _ => true
  | _ => false
  end.

(** The calls that can follow the call of [getApiRoute]: none, the handler,
    or the handler and then the hook with an instance of Error. *)
Definition apiTail (route : RouteInfo) (request' : ExpoRequest)
    (params : Params) (tail : list Event) : Prop :=
  tail = []
  ∨ tail = [CallRouteHandler route request' params]
  ∨ ∃ error,
      instanceof_Error error = true
      ∧ tail = [CallRouteHandler route request' params;
                CallLogApiRouteExecutionError error].

(** The calls of the three loops of one dispatch. *)
Definition dispatchTrace (parseURL : string -> URL) (request : ExpoRequest)
    (evs : list Event) : Prop :=
  evs = []
  ∨ (∃ route,
        evs = [CallGetHtml
                 (fst (updateRequestWithConfig parseURL request route))
                 route])
  ∨ ∃ route tail,
      evs = CallGetApiRoute route :: tail
      ∧ apiTail route
          (fst (updateRequestWithConfig parseURL request route))
          (snd (updateRequestWithConfig parseURL request route)) tail.

(** The calls of the first statement of [handler]. *)
Definition acquireTrace (distFolder : string) (evs : list Event) : Prop :=
  evs = []
  ∨ evs = [CallGetInternalRoutesManifest distFolder]
  ∨ evs = [CallGetRoutesManifest distFolder].

Section Sequences.

Context {World : Type}.
Variable parseURL : string -> URL.
Variable getRoutesManifest : string -> Cap World ExpoRoutesManifestV1.
Variable distFolder : string.
Variable options : Options World.

(** One request after the other on the same handler: the store the last
    dispatch leaves. *)
Fixpoint dispatchAll (requests : list ExpoRequest) (s : Store World)
  : Store World :=
  match requests with
  | [] => s
  | request :: rest =>
      dispatchAll rest
        (snd (handler parseURL getRoutesManifest distFolder options
                request s))
  end.

End Sequences.

(** ** A sample application *)

Module Sample.

(** The world is the console: the lines written so far. *)
Definition Console : Type := list string.

Fixpoint splitOn (sep : Ascii.ascii) (acc s : string) : list string :=
  match s with
  | EmptyString => [String.rev acc]
  | String c rest =>
      if Ascii.eqb c sep
      then String.rev acc :: splitOn sep EmptyString rest
      else splitOn sep (String c acc) rest
  end.

Definition parsePair (s : string) : string * string :=
  match splitOn "="%char EmptyString s with
  | [name] => (name, "")
  | name :: value :: _ => (name, value)
  | [] => ("", "")
  end.

(** The path and the query of [http://expo.dev/path?name=value&...]. *)
Definition parseURL (s : string) : URL :=
  let origin := "http://expo.dev" in
  let rest :=
    if String.prefix origin s
    then String.substring (String.length origin)
           (String.length s - String.length origin) s
    else s in
  match splitOn "?"%char EmptyString rest with
  | [path] => mkURL path []
  | path :: query :: _ =>
      mkURL path (parsePair <$> splitOn "&"%char EmptyString query)
  | [] => mkURL "" []
  end.

(** [^/users/(?<id>[^/]+?)$]. *)
Definition usersPattern : RegExp := fun s =>
  let id := String.substring 7 (String.length s - 7) s in
  if String.prefix "/users/" s && negb (String.eqb id "")
     && negb (bool_decide (is_Some (String.index 0 "/" id)))
  then ExecMatch (Some [("id", Some id)])
  else ExecNull.

(** [^/files(?:/(?<rest>.+))?$], the pattern of an optional catch-all
    segment: at [/files] the group [rest] takes no part in the match. *)
Definition filesPattern : RegExp := fun s =>
  let rest := String.substring 7 (String.length s - 7) s in
  if String.eqb s "/files" then ExecMatch (Some [("rest", None)])
  else if String.prefix "/files/" s && negb (String.eqb rest "")
  then ExecMatch (Some [("rest", Some rest)])
  else ExecNull.

Definition exactly (path : string) : RegExp := fun s =>
  if String.eqb s path then ExecMatch None else ExecNull.

Definition anything : RegExp := fun _ => ExecMatch None.

Definition indexRoute : RouteInfo :=
  mkRouteInfo "/index" "./index.tsx" (exactly "/") ∅.
Definition aboutRoute : RouteInfo :=
  mkRouteInfo "/about" "./about.tsx" (exactly "/about") ∅.
Definition emptyRoute : RouteInfo :=
  mkRouteInfo "/empty" "./empty.tsx" (exactly "/empty") ∅.
Definition userRoute : RouteInfo :=
  mkRouteInfo "/users/[id]" "_expo/functions/users/[id]+api.js"
    usersPattern {[ "id" := "id" ]}.
Definition filesRoute : RouteInfo :=
  mkRouteInfo "/files/[[...rest]]" "_expo/functions/files/[[...rest]]+api.js"
    filesPattern {[ "rest" := "rest" ]}.
Definition missingRoute : RouteInfo :=
  mkRouteInfo "/missing" "_expo/functions/missing+api.js"
    (exactly "/missing") ∅.
Definition catchAllApiRoute : RouteInfo :=
  mkRouteInfo "/[...all]" "_expo/functions/[...all]+api.js" anything ∅.
Definition notFoundRoute : RouteInfo :=
  mkRouteInfo "/+not-found" "./+not-found.tsx" anything ∅.

Definition manifest : ExpoRoutesManifestV1 :=
  mkManifest [indexRoute; aboutRoute; emptyRoute]
             [userRoute; missingRoute]
             [notFoundRoute].

Definition loadManifest : string -> Cap Console ExpoRoutesManifestV1 :=
  fun _ w => (Normal manifest, w).

(** Static pages: [/about] has no file, [/empty] has an empty one. *)
Definition staticHtml : ExpoRequest -> RouteInfo -> Cap Console HtmlContents :=
  fun _ route w =>
    if String.eqb (page route) "/index"
    then (Normal (HtmlString "<h1>Home</h1>"), w)
    else if String.eqb (page route) "/empty"
    then (Normal (HtmlString ""), w)
    else if String.eqb (page route) "/+not-found"
    then (Normal (HtmlString "<h1>Lost</h1>"), w)
    else (Normal HtmlNull, w).

(** A file system whose reads fail. *)
Definition brokenHtml : ExpoRequest -> RouteInfo -> Cap Console HtmlContents :=
  fun _ _ w => (Abrupt (ErrorInstance "EACCES"), w).

(** The module of [/users/[id]]: GET answers, POST throws an error, PUT
    throws a value that is not an error. *)
Definition usersModule : gmap string (RouteHandler Console) :=
  {[ "GET" := (fun _ params w =>
                 (Normal
                    (Responded
                       (mkResponse
                          (match params !! "id" with
                           | Some (Some id) => id
                           | _ => ""
                           end)
                          200 [("Content-Type", "application/json")])), w));
     "POST" := (fun _ _ w => (Abrupt (ErrorInstance "database is down"), w));
     "PUT" := (fun _ _ w => (Abrupt (OtherValue "redirect"), w)) ]}.

(** A module whose GET handler forgets to return: it resolves to
    [undefined]. *)
Definition silentModule : gmap string (RouteHandler Console) :=
  {[ "GET" := (fun _ _ w => (Normal (NotAResponse "undefined"), w)) ]}.

Definition loadModule : RouteInfo -> Cap Console (ApiRoute Console) :=
  fun route w =>
    if String.eqb (page route) "/users/[id]"
    then (Normal (ApiModule usersModule), w)
    else (Normal ApiNull, w).

(** [console.error]. *)
Definition consoleError : Thrown -> Cap Console unit :=
  fun error w =>
    (Normal tt,
     w ++ [match error with ErrorInstance m => m | OtherValue d => d end]).

Definition production : Options Console :=
  mkOptions None staticHtml loadModule consoleError.

Definition brokenDisk : Options Console :=
  mkOptions None brokenHtml loadModule consoleError.

(** A development server whose project has no routes yet. *)
Definition notSetUp : Options Console :=
  mkOptions (Some (fun _ w => (Normal None, w)))
            staticHtml loadModule consoleError.

(** A manifest whose catch-all API route overlaps [/users/[id]], handed
    out afresh for every request. *)
Definition overlapping : ExpoRoutesManifestV1 :=
  mkManifest [indexRoute] [userRoute; catchAllApiRoute] [notFoundRoute].

Definition development : Options Console :=
  mkOptions (Some (fun _ w => (Normal (Some overlapping), w)))
            staticHtml loadModule consoleError.

Definition get (path : string) : ExpoRequest :=
  mkRequest "GET" ("http://expo.dev" +:+ path) None.
Definition send (verb path : string) : ExpoRequest :=
  mkRequest verb ("http://expo.dev" +:+ path) None.

Definition fresh : Store Console := mkStore [] None [].
Definition warm : Store Console := mkStore [] (Some manifest) [].

Definition serve (options : Options Console) (request : ExpoRequest)
  : M Console Resolved :=
  createRequestHandler parseURL loadManifest "dist" options request.

(** A project without a not-found page. *)
Definition bare : ExpoRoutesManifestV1 :=
  mkManifest [indexRoute] [userRoute] [].

Definition loadBare : string -> Cap Console ExpoRoutesManifestV1 :=
  fun _ w => (Normal bare, w).

(** A project whose manifest file cannot be read. *)
Definition noManifest : string -> Cap Console ExpoRoutesManifestV1 :=
  fun _ w => (Abrupt (ErrorInstance "ENOENT"), w).

(** Pages behind a login: getHtml answers with a redirect of its own. *)
Definition toLogin : ExpoResponse :=
  mkResponse "" 302 [("Location", "/login")].

Definition guarded : Options Console :=
  mkOptions None (fun _ _ w => (Normal (HtmlResponse toLogin), w))
            loadModule consoleError.

(** An API that is switched off: getApiRoute answers by itself. *)
Definition switchedOff : ExpoResponse :=
  mkResponse "Down for maintenance" 503 text_plain.

Definition maintenance : Options Console :=
  mkOptions None staticHtml
            (fun _ w => (Normal (ApiResponse switchedOff), w)) consoleError.

(** Module files that do not load, and a console that is closed. *)
Definition brokenModules : Options Console :=
  mkOptions None staticHtml
            (fun _ w => (Abrupt (ErrorInstance "Cannot find module"), w))
            consoleError.

Definition brokenHook : Options Console :=
  mkOptions None staticHtml loadModule
            (fun _ w => (Abrupt (ErrorInstance "EPIPE"), w)).

(** A development server that cannot be reached: the supplier of the
    manifest raises. *)
Definition unreachable : Options Console :=
  mkOptions (Some (fun _ w => (Abrupt (ErrorInstance "ECONNREFUSED"), w)))
            staticHtml loadModule consoleError.

Definition silent : Options Console :=
  mkOptions None staticHtml (fun _ w => (Normal (ApiModule silentModule), w))
            consoleError.


(** [/users/[id]] with a manifest entry that lost its routeKeys. *)
Definition unnamedRoute : RouteInfo :=
  mkRouteInfo "/users/[id]" "_expo/functions/users/[id]+api.js"
    usersPattern ∅.

End Sample.

(** ** A sample deployment with the default capabilities *)

Module Deployed.

(** The world is the disk: the text of the files by their path. *)
Definition Disk : Type := gmap string string.

(** What [_expo/routes.json] of the sample parses to. *)
Definition rawManifest : RawManifest :=
  mkRawManifest
    (Some [mkRawRouteInfo "index" "./index.tsx" "^/$" ∅;
           mkRawRouteInfo "about" "./about.tsx" "^/about$" ∅])
    (Some [mkRawRouteInfo "/users/[id]" "_expo/functions/users/[id]+api.js"
             "^/users/(?<id>[^/]+?)$" {[ "id" := "id" ]}])
    (Some [mkRawRouteInfo "+not-found" "./+not-found.tsx" "" ∅]).

(** A manifest file with a pattern that does not compile. *)
Definition brokenManifest : RawManifest :=
  mkRawManifest
    (Some [mkRawRouteInfo "index" "./index.tsx" "^/$" ∅;
           mkRawRouteInfo "broken" "./broken.tsx" "(" ∅])
    (Some []) (Some []).

Definition readJSON : string -> Cap Disk RawManifest :=
  fun path w =>
    match w !! path with
    | Some text =>
        if String.eqb text "broken" then (Normal brokenManifest, w)
        else (Normal rawManifest, w)
    | None => (Abrupt (ErrorInstance "ENOENT"), w)
    end.

(** The patterns of the sample; any other source counts as malformed. *)
Definition newRegExp (source : string) : Completion RegExp :=
  if String.eqb source "^/users/(?<id>[^/]+?)$"
  then Normal Sample.usersPattern
  else if String.eqb source "" then Normal Sample.anything
  else if String.prefix "^" source && endsWith "$" source
  then Normal (Sample.exactly
                 (String.substring 1 (String.length source - 2) source))
  else Abrupt (ErrorInstance "Invalid regular expression").

Definition path_join (folder name : string) : string :=
  folder +:+ "/" +:+ name.

Definition existsSync (path : string) (w : Disk) : bool :=
  bool_decide (is_Some (w !! path)).

Definition readFileSync : string -> Cap Disk string :=
  fun path w =>
    match w !! path with
    | Some text => (Normal text, w)
    | None => (Abrupt (ErrorInstance "ENOENT"), w)
    end.

Definition requireModule : string -> Cap Disk (ApiRoute Disk) :=
  fun _ w => (Normal (ApiModule ∅), w).

Definition importModule : string -> Cap Disk (ApiRoute Disk) :=
  fun _ w => (Abrupt (ErrorInstance "ERR_MODULE_NOT_FOUND"), w).

Definition console_error : Thrown -> Cap Disk unit :=
  fun _ w => (Normal tt, w).

(** The build output: the page of [/about] and the module of
    [/users/[id]] were not written. *)
Definition disk : Disk :=
  {[ "dist/_expo/routes.json" := "{ ... }";
     "dist/index.html" := "<h1>Home</h1>";
     "dist/+not-found.html" := "<h1>Lost</h1>" ]}.

Definition bundled : Disk :=
  <[ "dist/_expo/functions/users/[id]+api.js" := "module.exports = {}" ]>
    disk.

(** The manifest the sample file compiles to. *)
Definition compiled : ExpoRoutesManifestV1 :=
  mkManifest
    [mkRouteInfo "index" "./index.tsx" (Sample.exactly "/") ∅;
     mkRouteInfo "about" "./about.tsx" (Sample.exactly "/about") ∅]
    [mkRouteInfo "/users/[id]" "_expo/functions/users/[id]+api.js"
       Sample.usersPattern {[ "id" := "id" ]}]
    [mkRouteInfo "+not-found" "./+not-found.tsx" Sample.anything ∅].

Definition options : Options Disk :=
  defaultOptions path_join existsSync readFileSync requireModule
    importModule console_error "dist" None.

Definition serve (request : ExpoRequest) : M Disk Resolved :=
  defaultHandler readJSON newRegExp path_join existsSync readFileSync
    requireModule importModule console_error Sample.parseURL "dist" None
    request.

Definition start : Store Disk := mkStore disk None [].

End Deployed.

(** ** Properties *)

Section MonadLaws.

Context {World : Type}.

Lemma bind_ret_l {A B} (a : A) (k : A -> M World B) s :
  bind (ret a) k s = k a s.
Proof. reflexivity. Qed.

Lemma bind_Normal {A B} (m : M World A) (k : A -> M World B) s a s' :
  m s = (Normal a, s') -> bind m k s = k a s'.
Proof. intros H. unfold bind. now rewrite H. Qed.

Lemma bind_Abrupt {A B} (m : M World A) (k : A -> M World B) s e s' :
  m s = (Abrupt e, s') -> bind m k s = (Abrupt e, s').
Proof. intros H. unfold bind. now rewrite H. Qed.

Lemma bind_assoc {A B C} (m : M World A) (k : A -> M World B)
    (h : B -> M World C) s :
  bind (bind m k) h s = bind m (fun a => bind (k a) h) s.
Proof. unfold bind. now destruct (m s) as [[a|e] s']. Qed.

Lemma call_eq {A} ev (c : Cap World A) s :
  call ev c s =
  (fst (c (world s)),
   mkStore (snd (c (world s))) (routesManifest s) (calls s ++ [ev])).
Proof. unfold call. now destruct (c (world s)). Qed.

End MonadLaws.

(** *** The query-parameter view *)

Section SearchParams.

Lemma has_name_true name p : has_name name p = true <-> fst p = name.
Proof. unfold has_name. apply String.eqb_eq. Qed.

Lemma has_name_false name p : has_name name p = false <-> fst p ≠ name.
Proof. unfold has_name. apply String.eqb_neq. Qed.

Lemma find_without name name' (l : URLSearchParams) :
  name ≠ name' ->
  List.find (has_name name)
    (List.filter (fun q => negb (has_name name' q)) l)
  = List.find (has_name name) l.
Proof.
  intros Hne. induction l as [|p l IH]; [reflexivity|]. simpl.
  destruct (has_name name' p) eqn:Hp'; simpl.
  - destruct (has_name name p) eqn:Hp; [|exact IH].
    apply has_name_true in Hp, Hp'. congruence.
  - now rewrite IH.
Qed.

(** After [set], [get] of that name gives the new value. *)
Lemma searchParams_get_set l name value :
  searchParams_get (searchParams_set l name value) name = Some value.
Proof.
  unfold searchParams_get. induction l as [|p l IH]; simpl.
  - unfold has_name at 1. simpl. now rewrite String.eqb_refl.
  - destruct (has_name name p) eqn:Hp; simpl.
    + unfold has_name at 1. simpl. now rewrite String.eqb_refl.
    + now rewrite Hp.
Qed.

(** [set] leaves the other names as they are. *)
Lemma searchParams_get_set_other l name name' value :
  name ≠ name' ->
  searchParams_get (searchParams_set l name' value) name
  = searchParams_get l name.
Proof.
  intros Hne. unfold searchParams_get. induction l as [|p l IH]; simpl.
  - assert (H : has_name name (name', value) = false)
      by now apply has_name_false; simpl.
    now rewrite H.
  - destruct (has_name name' p) eqn:Hp'; simpl.
    + assert (H : has_name name (name', value) = false)
        by now apply has_name_false; simpl.
      rewrite H, find_without by assumption.
      assert (H' : has_name name p = false).
      { apply has_name_false. apply has_name_true in Hp'. congruence. }
      now rewrite H'.
    + destruct (has_name name p); [reflexivity|exact IH].
Qed.

Lemma filter_name_without name (l : URLSearchParams) :
  List.filter (has_name name)
    (List.filter (fun q => negb (has_name name q)) l) = [].
Proof.
  induction l as [|p l IH]; [reflexivity|]. simpl.
  destruct (has_name name p) eqn:Hp; simpl; [exact IH|].
  now rewrite Hp.
Qed.

Lemma filter_other_without name name' (l : URLSearchParams) :
  name ≠ name' ->
  List.filter (has_name name)
    (List.filter (fun q => negb (has_name name' q)) l)
  = List.filter (has_name name) l.
Proof.
  intros Hne. induction l as [|p l IH]; [reflexivity|]. simpl.
  destruct (has_name name' p) eqn:Hp'; simpl.
  - destruct (has_name name p) eqn:Hp; [|exact IH].
    apply has_name_true in Hp, Hp'. congruence.
  - now rewrite IH.
Qed.

(** After [set], the name has one pair. *)
Lemma searchParams_set_once l name value :
  List.filter (has_name name) (searchParams_set l name value)
  = [(name, value)].
Proof.
  assert (Hself : has_name name (name, value) = true)
    by now apply has_name_true.
  induction l as [|p l IH]; simpl.
  - now rewrite Hself.
  - destruct (has_name name p) eqn:Hp; simpl.
    + now rewrite Hself, filter_name_without.
    + now rewrite Hp.
Qed.

(** [set] keeps the pairs of the other names. *)
Lemma searchParams_set_others l name name' value :
  name ≠ name' ->
  List.filter (has_name name) (searchParams_set l name' value)
  = List.filter (has_name name) l.
Proof.
  intros Hne.
  assert (Hother : has_name name (name', value) = false)
    by now apply has_name_false; simpl.
  induction l as [|p l IH]; simpl.
  - now rewrite Hother.
  - destruct (has_name name' p) eqn:Hp'; simpl.
    + rewrite Hother, filter_other_without by assumption.
      assert (Hp : has_name name p = false).
      { apply has_name_false. apply has_name_true in Hp'. congruence. }
      now rewrite Hp.
    + now rewrite IH.
Qed.

End SearchParams.

(** *** Augmentation *)

Section Augmentation.

Variable config : RouteInfo.

Lemma fold_setParam_snoc groups entry acc :
  fold_left (setParam config) (groups ++ [entry]) acc
  = setParam config (fold_left (setParam config) groups acc) entry.
Proof. now rewrite fold_left_app. Qed.

Lemma fold_setParam_pathname groups acc :
  pathname (fst (fold_left (setParam config) groups acc))
  = pathname (fst acc).
Proof.
  revert acc. induction groups as [|entry groups IH]; intros acc;
    [reflexivity|].
  simpl. now rewrite IH.
Qed.

Lemma lookup_assign_eq (params : Params) name value :
  name ≠ "__proto__" -> assign params name value !! name = Some value.
Proof.
  intros Hne. unfold assign.
  destruct (String.eqb_spec name "__proto__") as [Heq|_]; [easy|].
  apply lookup_insert_eq.
Qed.

Lemma lookup_assign_ne (params : Params) name name' value :
  name ≠ name' -> assign params name value !! name' = params !! name'.
Proof.
  intros Hne. unfold assign.
  destruct (String.eqb name "__proto__"); [reflexivity|].
  now apply lookup_insert_ne.
Qed.

Lemma lookup_assign_proto (params : Params) name value :
  assign params name value !! "__proto__" = params !! "__proto__".
Proof.
  unfold assign.
  destruct (String.eqb_spec name "__proto__") as [Heq|Hne]; [reflexivity|].
  now apply lookup_insert_ne.
Qed.

(** No parameter has the name [__proto__]. *)
Lemma fold_setParam_proto groups expoUrl :
  snd (fold_left (setParam config) groups (expoUrl, ∅)) !! "__proto__"
  = None.
Proof.
  induction groups as [|entry groups IH] using rev_ind.
  - apply lookup_empty.
  - rewrite fold_setParam_snoc. unfold setParam at 1. cbn [fst snd].
    now rewrite lookup_assign_proto.
Qed.

Lemma param_not_proto groups expoUrl name value :
  snd (fold_left (setParam config) groups (expoUrl, ∅)) !! name
  = Some value ->
  name ≠ "__proto__".
Proof. intros H ->. now rewrite fold_setParam_proto in H. Qed.

(** Every parameter has exactly one pair in the query-parameter view: its
    name with its value as a string. *)
Lemma fold_setParam_single groups expoUrl name value :
  snd (fold_left (setParam config) groups (expoUrl, ∅)) !! name
  = Some value ->
  List.filter (has_name name)
    (searchParams (fst (fold_left (setParam config) groups (expoUrl, ∅))))
  = [(name, toUSVString value)].
Proof.
  intros Hp. pose proof (param_not_proto _ _ _ _ Hp) as Hproto.
  revert value Hp. induction groups as [|entry groups IH] using rev_ind;
    intros value.
  - cbn. now rewrite lookup_empty.
  - rewrite fold_setParam_snoc. unfold setParam at 1 3.
    cbn [fst snd searchParams].
    destruct (decide (namedKey_of config (fst entry) = name)) as [<-|Hne].
    + rewrite lookup_assign_eq by assumption. intros [= <-].
      apply searchParams_set_once.
    + rewrite lookup_assign_ne by assumption. intros H.
      rewrite searchParams_set_others by congruence. now apply IH.
Qed.







End Augmentation.

Section Properties.

Context {World : Type}.
Variable parseURL : string -> URL.
Variable getRoutesManifest : string -> Cap World ExpoRoutesManifestV1.
Variable distFolder : string.
Variable options : Options World.

Local Abbreviation pathOf request := (pathname (parseURL (url request))).
Local Abbreviation updated request route :=
  (updateRequestWithConfig parseURL request route).
Local Abbreviation run request :=
  (handler parseURL getRoutesManifest distFolder options request).
Local Abbreviation acquire :=
  (acquireManifest getRoutesManifest distFolder options).

(** *** The loops return at the first match *)

Lemma htmlLoop_firstMatch okStatus request path routes s :
  htmlLoop parseURL options okStatus request path routes s =
  match firstMatch path routes with
  | Some route =>
      bind (serveHtml parseURL options okStatus request route)
           (fun r => ret (Some r)) s
  | None => (Normal None, s)
  end.
Proof.
  induction routes as [|route rest IH]; [reflexivity|].
  simpl. unfold matches at 1. destruct (test _ _); simpl; [reflexivity|].
  exact IH.
Qed.

Lemma apiLoop_firstMatch request path routes s :
  apiLoop parseURL options request path routes s =
  match firstMatch path routes with
  | Some route =>
      bind (serveApi parseURL options request route)
           (fun r => ret (Some r)) s
  | None => (Normal None, s)
  end.
Proof.
  induction routes as [|route rest IH]; [reflexivity|].
  simpl. unfold matches at 1. destruct (test _ _); simpl; [reflexivity|].
  exact IH.
Qed.

(** [dispatchRoutes] serves the dispatched descriptor, or answers with
    the default response. *)
Lemma dispatchRoutes_dispatched manifest request s :
  dispatchRoutes parseURL options manifest request s =
  match dispatched parseURL manifest request with
  | Some (category, route) =>
      serveRoute parseURL options category request route s
  | None => (Normal (Responded (mkResponse "Not found" 404 text_plain)), s)
  end.
Proof.
  unfold dispatchRoutes, dispatched.
  assert (Hrest : forall s0,
    bind (apiLoop parseURL options request (pathOf request)
            (apiRoutes manifest))
      (fun api =>
         match api with
         | Some r => ret r
         | None =>
             bind (htmlLoop parseURL options 404 request (pathOf request)
                     (notFoundRoutes manifest))
               (fun notFound =>
                  match notFound with
                  | Some r => ret r
                  | None =>
                      ret (Responded
                             (mkResponse "Not found" 404 text_plain))
                  end)
         end) s0 =
    match firstMatch (pathOf request) (apiRoutes manifest) with
    | Some route => serveApi parseURL options request route s0
    | None =>
        match firstMatch (pathOf request) (notFoundRoutes manifest) with
        | Some route => serveHtml parseURL options 404 request route s0
        | None =>
            (Normal (Responded (mkResponse "Not found" 404 text_plain)), s0)
        end
    end).
  { intros s0. unfold bind at 1. rewrite apiLoop_firstMatch.
    destruct (firstMatch _ (apiRoutes manifest)) as [route|].
    - unfold bind, ret.
      now destruct (serveApi _ _ _ _ s0) as [[r|e] s'].
    - unfold bind at 1. rewrite htmlLoop_firstMatch.
      destruct (firstMatch _ (notFoundRoutes manifest)) as [route|];
        [|reflexivity].
      unfold bind, ret.
      now destruct (serveHtml _ _ _ _ _ s0) as [[r|e] s']. }
  destruct (isGetOrHead request).
  - unfold bind at 1. rewrite htmlLoop_firstMatch.
    destruct (firstMatch _ (htmlRoutes manifest)) as [route|].
    + simpl. unfold bind, ret.
      now destruct (serveHtml _ _ _ _ _ s) as [[r|e] s'].
    + rewrite Hrest.
      destruct (firstMatch _ (apiRoutes manifest)); [reflexivity|].
      now destruct (firstMatch _ (notFoundRoutes manifest)).
  - rewrite bind_ret_l, Hrest.
    destruct (firstMatch _ (apiRoutes manifest)); [reflexivity|].
    now destruct (firstMatch _ (notFoundRoutes manifest)).
Qed.

Lemma dispatched_Html manifest request route :
  isGetOrHead request = true ->
  firstMatch (pathOf request) (htmlRoutes manifest) = Some route ->
  dispatched parseURL manifest request = Some (Html, route).
Proof. intros Hm Hf. unfold dispatched. now rewrite Hm, Hf. Qed.

Lemma dispatched_Api manifest request route :
  htmlPasses parseURL manifest request ->
  firstMatch (pathOf request) (apiRoutes manifest) = Some route ->
  dispatched parseURL manifest request = Some (Api, route).
Proof.
  intros [Hm|Hf] Ha; unfold dispatched.
  - now rewrite Hm, Ha.
  - rewrite Hf, Ha. now destruct (isGetOrHead request).
Qed.

Lemma dispatched_NotFound manifest request route :
  htmlPasses parseURL manifest request ->
  firstMatch (pathOf request) (apiRoutes manifest) = None ->
  firstMatch (pathOf request) (notFoundRoutes manifest) = Some route ->
  dispatched parseURL manifest request = Some (NotFound, route).
Proof.
  intros [Hm|Hf] Ha Hn; unfold dispatched.
  - now rewrite Hm, Ha, Hn.
  - rewrite Hf, Ha, Hn. now destruct (isGetOrHead request).
Qed.

(** *** The handler, once the manifest is there *)

Lemma run_acquired request s manifest s1 :
  acquire s = (Normal (inr manifest), s1) ->
  run request s = dispatchRoutes parseURL options manifest request s1.
Proof. intros H. unfold handler. now rewrite (bind_Normal _ _ _ _ _ H). Qed.

Lemma run_dispatched request s manifest s1 category route :
  acquire s = (Normal (inr manifest), s1) ->
  dispatched parseURL manifest request = Some (category, route) ->
  run request s = serveRoute parseURL options category request route s1.
Proof.
  intros H Hd. rewrite (run_acquired _ _ _ _ H).
  now rewrite dispatchRoutes_dispatched, Hd.
Qed.

(** What the html response is made of. *)
Lemma serveHtml_run okStatus request route s :
  serveHtml parseURL options okStatus request route s =
  (match
     fst (getHtml options (fst (updated request route)) route (world s))
   with
   | Normal contents =>
       Normal (Responded
                 (if falsy contents
                  then mkResponse "Not found" 404 text_plain
                  else match contents with
                       | HtmlResponse r => r
                       | HtmlString c => mkResponse c okStatus text_html
                       | HtmlNull => mkResponse "" okStatus text_html
                       end))
   | Abrupt e => Abrupt e
   end,
   mkStore
     (snd (getHtml options (fst (updated request route)) route (world s)))
     (routesManifest s)
     (calls s ++ [CallGetHtml (fst (updated request route)) route])).
Proof.
  unfold serveHtml, bind. rewrite call_eq.
  destruct (getHtml _ _ _ _) as [[contents|e] w]; simpl; [|reflexivity].
  destruct (falsy contents); [reflexivity|]. now destruct contents.
Qed.

(** The calls of the first statement are to the manifest suppliers. *)
Lemma acquire_calls s :
  ∃ evs, calls (snd (acquire s)) = calls s ++ evs ∧
         Forall (fun ev => routeOf ev = None) evs ∧ hookCalls evs = [].
Proof.
  unfold acquireManifest.
  destruct (getInternalRoutesManifest options) as [supplier|].
  - unfold bind. rewrite call_eq.
    destruct (supplier distFolder (world s)) as [[[m|]|e] w]; simpl;
      eexists; (split; [reflexivity|]); split; try reflexivity;
      repeat constructor.
  - unfold bind. simpl. destruct (routesManifest s) as [m|]; simpl.
    + exists []. rewrite app_nil_r. repeat constructor.
    + rewrite call_eq.
      destruct (getRoutesManifest distFolder (world s)) as [[m|e] w]; simpl;
        eexists; (split; [reflexivity|]); split; try reflexivity;
        repeat constructor.
Qed.

Lemma hookCalls_app evs evs' :
  hookCalls (evs ++ evs') = hookCalls evs ++ hookCalls evs'.
Proof. apply omap_app. Qed.

Lemma acquire_hookCalls s o s1 :
  acquire s = (o, s1) -> hookCalls (calls s1) = hookCalls (calls s).
Proof.
  intros H. destruct (acquire_calls s) as (evs & Hc & _ & Hh).
  rewrite H in Hc. simpl in Hc.
  now rewrite Hc, hookCalls_app, Hh, app_nil_r.
Qed.

(** *** C5 *)


(** *** C8 *)

(** C8. When a manifest supplier is configured and yields null, the
    dispatcher answers 404 with the plain-text body "No routes manifest
    found"; the supplier is the only capability it calls, so the
    error-reporting hook is not invoked, and the cached manifest, if there
    is one, is neither used nor changed. *)
Theorem missing_manifest_is_404 request s supplier :
  getInternalRoutesManifest options = Some supplier ->
  fst (supplier distFolder (world s)) = Normal None ->
  fst (run request s)
  = Normal (mkResponse "No routes manifest found" 404 text_plain)
  ∧ calls (snd (run request s))
    = calls s ++ [CallGetInternalRoutesManifest distFolder]
  ∧ hookCalls (calls (snd (run request s))) = hookCalls (calls s)
  ∧ routesManifest (snd (run request s)) = routesManifest s.
Proof.
  intros Hs Hn. unfold handler, acquireManifest. rewrite Hs.
  unfold bind. rewrite call_eq, Hn. simpl.
  repeat split. now rewrite hookCalls_app, app_nil_r.
Qed.

(** *** C6 *)

(** C6. A GET or HEAD request whose path matches a descriptor of
    htmlRoutes, and for whose first match getHtml resolves to a non-empty
    string, is answered 200 with content type text/html and that string
    as the body. *)
Theorem html_route_is_served request s manifest s1 route contents :
  acquire s = (Normal (inr manifest), s1) ->
  isGetOrHead request = true ->
  firstMatch (pathOf request) (htmlRoutes manifest) = Some route ->
  fst (getHtml options (fst (updated request route)) route (world s1))
  = Normal (HtmlString contents) ->
  contents ≠ "" ->
  fst (run request s) = Normal (mkResponse contents 200 text_html).
Proof.
  intros Ha Hm Hf Hc Hne.
  rewrite (run_dispatched _ _ _ _ _ _ Ha (dispatched_Html _ _ _ Hm Hf)).
  simpl. rewrite serveHtml_run, Hc. simpl.
  destruct (String.eqb_spec contents ""); [contradiction|reflexivity].
Qed.

(** *** C10 *)

(** C10. When the request is dispatched to a descriptor of htmlRoutes (GET
    or HEAD only) or of notFoundRoutes and getHtml resolves to the empty
    string, the answer is the plain-text 404 "Not found", the same as for
    null. *)
Theorem empty_html_is_not_found request s manifest s1 route :
  acquire s = (Normal (inr manifest), s1) ->
  (isGetOrHead request = true ∧
   firstMatch (pathOf request) (htmlRoutes manifest) = Some route)
  ∨ (htmlPasses parseURL manifest request ∧
     firstMatch (pathOf request) (apiRoutes manifest) = None ∧
     firstMatch (pathOf request) (notFoundRoutes manifest) = Some route) ->
  fst (getHtml options (fst (updated request route)) route (world s1))
  = Normal (HtmlString "") ->
  fst (run request s) = Normal (mkResponse "Not found" 404 text_plain)
  ∧ ∀ okStatus s0,
      fst (getHtml options (fst (updated request route)) route (world s0))
      = Normal HtmlNull ->
      fst (serveHtml parseURL options okStatus request route s0)
      = Normal (mkResponse "Not found" 404 text_plain).
Proof.
  intros Ha Hd Hc. split.
  - destruct Hd as [[Hm Hf]|(Hp & Hapi & Hf)].
    + rewrite (run_dispatched _ _ _ _ _ _ Ha (dispatched_Html _ _ _ Hm Hf)).
      simpl. now rewrite serveHtml_run, Hc.
    + rewrite (run_dispatched _ _ _ _ _ _ Ha
                 (dispatched_NotFound _ _ _ Hp Hapi Hf)).
      simpl. now rewrite serveHtml_run, Hc.
  - intros okStatus s0 Hn. now rewrite serveHtml_run, Hn.
Qed.

(** *** The API loop body, case by case *)

Lemma serveApi_no_handler request route s func :
  fst (getApiRoute options route (world s)) = Normal func ->
  (∀ r, func ≠ ApiResponse r) ->
  routeHandler_of func request = None ->
  serveApi parseURL options request route s =
  (Normal (Responded (mkResponse "Method not allowed" 405 text_plain)),
   afterGetApiRoute options route s).
Proof.
  intros Hf Hr Hh. unfold serveApi, bind. rewrite call_eq, Hf.
  destruct func as [|r0|exports]; simpl in *;
    [reflexivity|now destruct (Hr r0)|now rewrite Hh].
Qed.

Lemma serveApi_handler request route s
    (exports : gmap string (RouteHandler World))
    (routeHandler : RouteHandler World) :
  fst (getApiRoute options route (world s)) = Normal (ApiModule exports) ->
  exports !! method request = Some routeHandler ->
  serveApi parseURL options request route s =
  try_catch
    (call (CallRouteHandler route (fst (updated request route))
             (snd (updated request route)))
          (routeHandler (fst (updated request route))
             (snd (updated request route))))
    (fun error =>
       bind (if instanceof_Error error
             then call (CallLogApiRouteExecutionError error)
                       (logApiRouteExecutionError options error)
             else ret tt)
            (fun _ => ret (Responded
                             (mkResponse "Internal server error" 500
                                text_plain))))
    (afterGetApiRoute options route s).
Proof.
  intros Hf Hh. unfold serveApi, bind at 1. rewrite call_eq, Hf.
  cbn [fst snd routeHandler_of]. now rewrite Hh.
Qed.

(** *** C2 *)

(** C2, as the code has it. When the request reaches the loop over
    apiRoutes, a pattern matches and getApiRoute resolves to null for the
    first match, the module has no handler for any method: the answer is
    405 with the plain-text body "Method not allowed", and no handler and
    no hook is called. *)
Theorem missing_module_is_405 request s manifest s1 route :
  acquire s = (Normal (inr manifest), s1) ->
  htmlPasses parseURL manifest request ->
  firstMatch (pathOf request) (apiRoutes manifest) = Some route ->
  fst (getApiRoute options route (world s1)) = Normal ApiNull ->
  fst (run request s)
  = Normal (mkResponse "Method not allowed" 405 text_plain)
  ∧ calls (snd (run request s)) = calls s1 ++ [CallGetApiRoute route].
Proof.
  intros Ha Hp Hf Hn.
  rewrite (run_dispatched _ _ _ _ _ _ Ha (dispatched_Api _ _ _ Hp Hf)).
  simpl. now rewrite (serveApi_no_handler _ _ _ _ Hn).
Qed.

(** *** C3 *)

(** C3, as the code has it. When the handler of the matched API route
    raises, the answer is 500 with the plain-text body "Internal server
    error", whatever was raised. A raised instance of Error is handed to
    the error-reporting hook exactly once (the answer follows when the
    hook returns); a raised value that is not an instance of Error is not
    reported. *)
Theorem handler_fault_is_500 request s manifest s1 route
    (exports : gmap string (RouteHandler World))
    (routeHandler : RouteHandler World) error :
  let request' := fst (updated request route) in
  let params := snd (updated request route) in
  let w1 := snd (getApiRoute options route (world s1)) in
  let w2 := snd (routeHandler request' params w1) in
  acquire s = (Normal (inr manifest), s1) ->
  htmlPasses parseURL manifest request ->
  firstMatch (pathOf request) (apiRoutes manifest) = Some route ->
  fst (getApiRoute options route (world s1)) = Normal (ApiModule exports) ->
  exports !! method request = Some routeHandler ->
  fst (routeHandler request' params w1) = Abrupt error ->
  (instanceof_Error error = true ->
     hookCalls (calls (snd (run request s))) = hookCalls (calls s) ++ [error]
     ∧ (fst (logApiRouteExecutionError options error w2) = Normal tt ->
        fst (run request s)
        = Normal (mkResponse "Internal server error" 500 text_plain)))
  ∧ (instanceof_Error error = false ->
     hookCalls (calls (snd (run request s))) = hookCalls (calls s)
     ∧ fst (run request s)
       = Normal (mkResponse "Internal server error" 500 text_plain)).
Proof.
  intros request' params w1 w2 Ha Hp Hf Hm Hh He.
  rewrite (run_dispatched _ _ _ _ _ _ Ha (dispatched_Api _ _ _ Hp Hf)).
  simpl. rewrite (serveApi_handler _ _ _ _ _ Hm Hh).
  fold request' params. unfold try_catch. rewrite call_eq.
  unfold afterGetApiRoute at 1 2. simpl. fold w1. rewrite He.
  pose proof (acquire_hookCalls _ _ _ Ha) as Hs1.
  split; intros Hi; rewrite Hi; unfold bind.
  - rewrite call_eq. simpl. fold w1 w2. split.
    + destruct (fst (logApiRouteExecutionError options error w2));
        cbn [ret fst snd calls]; rewrite !hookCalls_app, Hs1; simpl;
        now rewrite !app_nil_r.
    + intros Hl. now rewrite Hl.
  - cbn [ret fst snd calls]. rewrite !hookCalls_app, Hs1. simpl.
    now rewrite !app_nil_r.
Qed.

(** *** C1 *)

Lemma acquire_returns s :
  (∀ supplier, getInternalRoutesManifest options = Some supplier ->
               returns (supplier distFolder)) ->
  returns (getRoutesManifest distFolder) ->
  ∃ a s', acquire s = (Normal a, s').
Proof.
  intros Hs Hl. unfold acquireManifest.
  destruct (getInternalRoutesManifest options) as [supplier|].
  - destruct (Hs supplier eq_refl (world s)) as (m & w & Hw).
    unfold bind. rewrite call_eq, Hw. simpl.
    destruct m; simpl; eauto.
  - unfold bind. simpl. destruct (routesManifest s); simpl; eauto.
    destruct (Hl (world s)) as (m & w & Hw).
    rewrite call_eq, Hw. simpl. eauto.
Qed.

Lemma serveHtml_returns okStatus request route s :
  (∀ request route, returns (getHtml options request route)) ->
  ∃ response s',
    serveHtml parseURL options okStatus request route s
    = (Normal (Responded response), s').
Proof.
  intros H. rewrite serveHtml_run.
  destruct (H (fst (updated request route)) route (world s))
    as (c & w & Hw).
  rewrite Hw. simpl. eauto.
Qed.

Lemma serveApi_returns request route s :
  (∀ route, returns (getApiRoute options route)) ->
  (∀ error, returns (logApiRouteExecutionError options error)) ->
  (∀ route w (exports : gmap string (RouteHandler World)) verb
     (routeHandler : RouteHandler World),
      fst (getApiRoute options route w) = Normal (ApiModule exports) ->
      exports !! verb = Some routeHandler -> answers routeHandler) ->
  ∃ response s',
    serveApi parseURL options request route s
    = (Normal (Responded response), s').
Proof.
  intros Hg Hl Hm. destruct (Hg route (world s)) as (func & w & Hw).
  assert (Hf : fst (getApiRoute options route (world s)) = Normal func)
    by now rewrite Hw.
  destruct func as [|r|exports].
  - rewrite (serveApi_no_handler _ _ _ _ Hf); [eauto|congruence|easy].
  - unfold serveApi, bind. rewrite call_eq, Hf. simpl. eauto.
  - destruct (exports !! method request) as [routeHandler|] eqn:Hh.
    + rewrite (serveApi_handler _ _ _ _ _ Hf Hh).
      unfold try_catch. rewrite call_eq.
      destruct (fst (routeHandler _ _ _)) as [value|error] eqn:Hv.
      * destruct (Hm _ _ _ _ _ Hf Hh _ _ _ _ Hv) as [response ->]. eauto.
      * unfold bind. destruct (instanceof_Error error); simpl; [|eauto].
        rewrite call_eq. simpl.
        match goal with
        | |- context [logApiRouteExecutionError options error ?w] =>
            destruct (Hl error w) as ([] & w' & Hw')
        end.
        rewrite Hw'. simpl. eauto.
    + rewrite (serveApi_no_handler _ _ _ _ Hf); [eauto|congruence|easy].
Qed.

(** C1, as the code has it. When the capabilities the dispatcher calls
    outside a try block (the manifest supplier or the default loader,
    getHtml, getApiRoute) and the error-reporting hook return, and the
    handlers of the modules that getApiRoute resolves to resolve to a
    response whenever they return, every dispatch ends with one response:
    an exception of the matched handler is caught and does not leave the
    dispatcher. *)
Theorem dispatch_ends_with_a_response request s :
  (∀ supplier, getInternalRoutesManifest options = Some supplier ->
               returns (supplier distFolder)) ->
  returns (getRoutesManifest distFolder) ->
  (∀ request route, returns (getHtml options request route)) ->
  (∀ route, returns (getApiRoute options route)) ->
  (∀ error, returns (logApiRouteExecutionError options error)) ->
  (∀ route w (exports : gmap string (RouteHandler World)) verb
     (routeHandler : RouteHandler World),
      fst (getApiRoute options route w) = Normal (ApiModule exports) ->
      exports !! verb = Some routeHandler -> answers routeHandler) ->
  ∃ (response : ExpoResponse) s',
    run request s = (Normal (Responded response), s').
Proof.
  intros Hs Hl Hh Hg He Hm.
  destruct (acquire_returns s Hs Hl) as ([response|manifest] & s1 & Ha).
  - unfold handler. rewrite (bind_Normal _ _ _ _ _ Ha). simpl. eauto.
  - rewrite (run_acquired _ _ _ _ Ha), dispatchRoutes_dispatched.
    destruct (dispatched parseURL manifest request) as [[[] route]|];
      simpl; eauto using serveHtml_returns, serveApi_returns.
Qed.

(** *** The calls of a dispatch *)

Lemma serveHtml_calls okStatus request route s :
  calls (snd (serveHtml parseURL options okStatus request route s))
  = calls s ++ [CallGetHtml (fst (updated request route)) route].
Proof. now rewrite serveHtml_run. Qed.

Lemma serveApi_calls request route s :
  ∃ evs,
    calls (snd (serveApi parseURL options request route s))
    = calls s ++ CallGetApiRoute route :: evs
    ∧ Forall (fun ev => ∀ r, routeOf ev = Some r -> r = route) evs.
Proof.
  destruct (fst (getApiRoute options route (world s))) as [func|e] eqn:Hf.
  - destruct func as [|r|exports].
    + rewrite (serveApi_no_handler _ _ _ _ Hf) by easy.
      exists []. now split.
    + unfold serveApi, bind. rewrite call_eq, Hf. exists []. now split.
    + destruct (exports !! method request) as [routeHandler|] eqn:Hh.
      * rewrite (serveApi_handler _ _ _ _ _ Hf Hh).
        unfold try_catch. rewrite call_eq.
        destruct (fst (routeHandler _ _ _)) as [r|error].
        { eexists [_]. simpl. rewrite <- app_assoc. split; [reflexivity|].
          constructor; [|constructor]. now intros r0 [= <-]. }
        unfold bind. destruct (instanceof_Error error).
        { rewrite call_eq.
          eexists [_; _].
          split.
          - destruct (fst (logApiRouteExecutionError _ _ _)); simpl;
              now rewrite <- !app_assoc.
          - constructor; [now intros r0 [= <-]|].
            constructor; [easy|constructor]. }
        { eexists [_]. simpl. rewrite <- app_assoc. split; [reflexivity|].
          constructor; [|constructor]. now intros r0 [= <-]. }
      * rewrite (serveApi_no_handler _ _ _ _ Hf) by easy.
        exists []. now split.
  - unfold serveApi, bind. rewrite call_eq, Hf. exists []. now split.
Qed.

Lemma serveRoute_calls category request route s :
  ∃ evs,
    calls (snd (serveRoute parseURL options category request route s))
    = calls s ++ resolverCall parseURL category request route :: evs
    ∧ Forall (fun ev => ∀ r, routeOf ev = Some r -> r = route) evs.
Proof.
  destruct category; simpl; try apply serveApi_calls;
    rewrite serveHtml_calls; exists []; now split.
Qed.

(** *** First match *)

Lemma firstMatch_app_match path pre route rest :
  matches path route = true ->
  firstMatch path (pre ++ route :: rest) = firstMatch path (pre ++ [route]).
Proof.
  intros Hm. induction pre as [|r pre IH]; simpl.
  - now rewrite Hm.
  - now destruct (matches path r).
Qed.

Lemma firstMatch_after_misses path pre route :
  Forall (fun r => matches path r = false) pre ->
  matches path route = true ->
  firstMatch path (pre ++ [route]) = Some route.
Proof.
  intros Hpre Hm. induction Hpre as [|r pre Hr _ IH]; simpl.
  - now rewrite Hm.
  - now rewrite Hr.
Qed.

Lemma firstMatch_is_Some path pre route :
  matches path route = true -> is_Some (firstMatch path (pre ++ [route])).
Proof.
  intros Hm. induction pre as [|r pre IH]; simpl.
  - rewrite Hm. eauto.
  - destruct (matches path r); eauto.
Qed.

Lemma dispatched_firstMatch manifest request category route :
  dispatched parseURL manifest request = Some (category, route) ->
  firstMatch (pathOf request) (routesOf category manifest) = Some route.
Proof.
  unfold dispatched.
  destruct (isGetOrHead request);
    [destruct (firstMatch _ (htmlRoutes manifest)) eqn:Hh;
       [now intros [= <- <-]|]|];
    (destruct (firstMatch _ (apiRoutes manifest)) eqn:Ha;
       [now intros [= <- <-]|]);
    (destruct (firstMatch _ (notFoundRoutes manifest)) eqn:Hn;
       [now intros [= <- <-]|easy]).
Qed.

Lemma dispatched_withRoutes manifest request category routes :
  firstMatch (pathOf request) routes
  = firstMatch (pathOf request) (routesOf category manifest) ->
  dispatched parseURL (withRoutes category routes manifest) request
  = dispatched parseURL manifest request.
Proof.
  intros H. unfold dispatched. destruct category; simpl in *; now rewrite H.
Qed.

(** *** C4 *)

(** C4. Let two descriptors of one category match the path of the request,
    r1 declared before r2. The descriptor of the category that can be
    dispatched is its first match, which is declared no later than r1 (it
    is r1 when no descriptor before r1 matches). Whatever category the
    request is dispatched in, the resolver is called for the first match
    of that category, and every other call of the dispatch that carries a
    descriptor carries that one; a request that is dispatched nowhere
    makes no call. The descriptors declared after r1 are not reached: the
    dispatch is the one of the manifest cut after r1. *)
Theorem first_match_wins category request s manifest s1 pre r1 mid r2 post :
  acquire s = (Normal (inr manifest), s1) ->
  routesOf category manifest = pre ++ r1 :: mid ++ r2 :: post ->
  matches (pathOf request) r1 = true ->
  matches (pathOf request) r2 = true ->
  (∃ d, firstMatch (pathOf request) (routesOf category manifest) = Some d
        ∧ firstMatch (pathOf request) (pre ++ [r1]) = Some d
        ∧ (Forall (fun r => matches (pathOf request) r = false) pre ->
           d = r1))
  ∧ (∀ c d,
        dispatched parseURL manifest request = Some (c, d) ->
        firstMatch (pathOf request) (routesOf c manifest) = Some d
        ∧ ∃ evs,
            calls (snd (run request s))
            = calls s1 ++ resolverCall parseURL c request d :: evs
            ∧ Forall (fun ev => ∀ r, routeOf ev = Some r -> r = d) evs)
  ∧ (dispatched parseURL manifest request = None ->
     calls (snd (run request s)) = calls s1)
  ∧ run request s
    = dispatchRoutes parseURL options
        (withRoutes category (pre ++ [r1]) manifest) request s1.
Proof.
  intros Ha Hroutes Hm1 Hm2.
  assert (Hcut : firstMatch (pathOf request) (pre ++ [r1])
                 = firstMatch (pathOf request) (routesOf category manifest)).
  { rewrite Hroutes. symmetry. now apply firstMatch_app_match. }
  split; [|split; [|split]].
  - destruct (firstMatch_is_Some (pathOf request) pre r1 Hm1) as [d Hd].
    exists d. split; [now rewrite <- Hcut|]. split; [assumption|].
    intros Hpre. rewrite (firstMatch_after_misses _ _ _ Hpre Hm1) in Hd.
    congruence.
  - intros c d Hd. split; [now apply dispatched_firstMatch|].
    rewrite (run_dispatched _ _ _ _ _ _ Ha Hd). apply serveRoute_calls.
  - intros Hd. rewrite (run_acquired _ _ _ _ Ha), dispatchRoutes_dispatched.
    now rewrite Hd.
  - rewrite (run_acquired _ _ _ _ Ha), !dispatchRoutes_dispatched.
    now rewrite (dispatched_withRoutes _ _ _ _ Hcut).
Qed.

(** *** C7 *)

(** C7. For a method other than GET and HEAD the sequence htmlRoutes plays
    no part: the dispatch is the same whatever htmlRoutes holds, and it is
    not in the category Html. For every method, when the loop over
    htmlRoutes does not return, the resolver of the first matching
    descriptor of apiRoutes is called. For every method, when neither of
    the two loops returns, getHtml is called for the first matching
    descriptor of notFoundRoutes, and a non-empty string it resolves to is
    answered with status 404 and content type text/html. *)
Theorem method_gates_html_only request s manifest s1 :
  acquire s = (Normal (inr manifest), s1) ->
  (isGetOrHead request = false ->
     htmlPasses parseURL manifest request
     ∧ (∀ routes,
           run request s
           = dispatchRoutes parseURL options
               (withRoutes Html routes manifest) request s1)
     ∧ ∀ c d, dispatched parseURL manifest request = Some (c, d) ->
              c ≠ Html)
  ∧ (∀ route,
        htmlPasses parseURL manifest request ->
        firstMatch (pathOf request) (apiRoutes manifest) = Some route ->
        ∃ evs, calls (snd (run request s))
               = calls s1 ++ CallGetApiRoute route :: evs)
  ∧ (∀ route,
        htmlPasses parseURL manifest request ->
        firstMatch (pathOf request) (apiRoutes manifest) = None ->
        firstMatch (pathOf request) (notFoundRoutes manifest) = Some route ->
        calls (snd (run request s))
        = calls s1 ++ [CallGetHtml (fst (updated request route)) route]
        ∧ ∀ contents,
            fst (getHtml options (fst (updated request route)) route
                   (world s1)) = Normal (HtmlString contents) ->
            contents ≠ "" ->
            fst (run request s)
            = Normal (mkResponse contents 404 text_html)).
Proof.
  intros Ha. split; [|split].
  - intros Hm. split; [now left|]. split.
    + intros routes.
      rewrite (run_acquired _ _ _ _ Ha), !dispatchRoutes_dispatched.
      unfold dispatched. now rewrite Hm.
    + intros c d. unfold dispatched. rewrite Hm.
      destruct (firstMatch _ (apiRoutes manifest));
        [now intros [= <- <-]|].
      destruct (firstMatch _ (notFoundRoutes manifest));
        [now intros [= <- <-]|easy].
  - intros route Hp Hf.
    rewrite (run_dispatched _ _ _ _ _ _ Ha (dispatched_Api _ _ _ Hp Hf)).
    simpl. destruct (serveApi_calls request route s1) as (evs & H & _).
    eauto.
  - intros route Hp Hapi Hf.
    rewrite (run_dispatched _ _ _ _ _ _ Ha
               (dispatched_NotFound _ _ _ Hp Hapi Hf)).
    cbn [serveRoute]. split; [apply serveHtml_calls|].
    intros contents Hc Hne. rewrite serveHtml_run, Hc. simpl.
    destruct (String.eqb_spec contents ""); [contradiction|reflexivity].
Qed.

(** *** Two runs *)

Lemma stable_ret {A} (a : A) : stable (ret (World:=World) a).
Proof. easy. Qed.

Lemma stable_call {A} ev (c : Cap World A) :
  deterministic c -> stable (call ev c).
Proof. intros H s s'. rewrite !call_eq. apply H. Qed.

Lemma stable_bind {A B} (m : M World A) (k : A -> M World B) :
  stable m ->
  (∀ a s, fst (m s) = Normal a -> stable (k a)) ->
  stable (bind m k).
Proof.
  intros Hm Hk s s'. unfold bind. specialize (Hm s s').
  destruct (m s) as [[a|e] t] eqn:H, (m s') as [[a'|e'] t'];
    cbn [fst] in *; try congruence.
  injection Hm as <-. apply (Hk a s). now rewrite H.
Qed.

Lemma stable_try_catch {A} (m : M World A) (h : Thrown -> M World A) :
  stable m -> (∀ e, stable (h e)) -> stable (try_catch m h).
Proof.
  intros Hm Hh s s'. unfold try_catch. specialize (Hm s s').
  destruct (m s) as [[a|e] t], (m s') as [[a'|e'] t'];
    cbn [fst] in *; try congruence.
  injection Hm as <-. apply Hh.
Qed.

Section Pure.

Hypothesis getHtml_pure :
  ∀ request route, deterministic (getHtml options request route).
Hypothesis getApiRoute_pure :
  ∀ route, deterministic (getApiRoute options route).
Hypothesis handlers_pure :
  ∀ route w (exports : gmap string (RouteHandler World)) verb
    (routeHandler : RouteHandler World) request params,
    fst (getApiRoute options route w) = Normal (ApiModule exports) ->
    exports !! verb = Some routeHandler ->
    deterministic (routeHandler request params).
Hypothesis hook_pure :
  ∀ error, deterministic (logApiRouteExecutionError options error).

Lemma serveHtml_stable okStatus request route :
  stable (serveHtml parseURL options okStatus request route).
Proof.
  intros s s'. rewrite !serveHtml_run. simpl.
  now rewrite (getHtml_pure _ _ (world s) (world s')).
Qed.

Lemma serveApi_stable request route :
  stable (serveApi parseURL options request route).
Proof.
  unfold serveApi. apply stable_bind.
  - apply stable_call, getApiRoute_pure.
  - intros func s Hf. rewrite call_eq in Hf. simpl in Hf.
    destruct func as [|r|exports]; try apply stable_ret.
    cbn [routeHandler_of].
    destruct (exports !! method request) as [routeHandler|] eqn:Hh;
      [|apply stable_ret].
    apply stable_try_catch.
    + apply stable_call. eapply handlers_pure; eassumption.
    + intros error. apply stable_bind; [|intros; apply stable_ret].
      destruct (instanceof_Error error);
        [apply stable_call, hook_pure|apply stable_ret].
Qed.

Lemma dispatchRoutes_stable manifest request :
  stable (dispatchRoutes parseURL options manifest request).
Proof.
  intros s s'. rewrite !dispatchRoutes_dispatched.
  destruct (dispatched parseURL manifest request) as [[[] route]|];
    cbn [serveRoute fst];
    [apply serveHtml_stable|apply serveApi_stable|apply serveHtml_stable|
     reflexivity].
Qed.

End Pure.

Lemma serveApi_routesManifest request route s :
  routesManifest (snd (serveApi parseURL options request route s))
  = routesManifest s.
Proof.
  unfold serveApi, bind. rewrite call_eq.
  destruct (fst (getApiRoute options route (world s))) as [func|e];
    [|reflexivity].
  destruct func as [|r|exports]; try reflexivity.
  cbn [routeHandler_of].
  destruct (exports !! method request) as [routeHandler|]; [|reflexivity].
  unfold try_catch. rewrite call_eq.
  destruct (fst (routeHandler _ _ _)) as [r|error]; [reflexivity|].
  destruct (instanceof_Error error); [|reflexivity].
  rewrite call_eq.
  now destruct (fst (logApiRouteExecutionError _ _ _)).
Qed.

Lemma dispatchRoutes_routesManifest manifest request s :
  routesManifest (snd (dispatchRoutes parseURL options manifest request s))
  = routesManifest s.
Proof.
  rewrite dispatchRoutes_dispatched.
  destruct (dispatched parseURL manifest request) as [[[] route]|];
    simpl; rewrite ?serveHtml_run; auto using serveApi_routesManifest.
Qed.

Lemma acquire_cached s manifest :
  getInternalRoutesManifest options = None ->
  routesManifest s = Some manifest ->
  acquire s = (Normal (inr manifest), s).
Proof.
  intros Hn Hc. unfold acquireManifest, bind. rewrite Hn.
  cbn [read_routesManifest]. now rewrite Hc.
Qed.

Lemma acquire_load s :
  getInternalRoutesManifest options = None ->
  routesManifest s = None ->
  acquire s =
  match fst (getRoutesManifest distFolder (world s)) with
  | Normal manifest =>
      (Normal (inr manifest),
       mkStore (snd (getRoutesManifest distFolder (world s)))
         (Some manifest) (calls s ++ [CallGetRoutesManifest distFolder]))
  | Abrupt e =>
      (Abrupt e,
       mkStore (snd (getRoutesManifest distFolder (world s))) None
         (calls s ++ [CallGetRoutesManifest distFolder]))
  end.
Proof.
  intros Hn Hc. unfold acquireManifest, bind. rewrite Hn.
  cbn [read_routesManifest]. rewrite Hc, call_eq, Hc.
  now destruct (fst (getRoutesManifest distFolder (world s))).
Qed.

(** The first statement gives the same again in a store that holds the
    manifest it left. *)
Lemma acquire_again s s' :
  (∀ supplier, getInternalRoutesManifest options = Some supplier ->
               deterministic (supplier distFolder)) ->
  deterministic (getRoutesManifest distFolder) ->
  routesManifest s' = routesManifest (snd (acquire s)) ->
  fst (acquire s') = fst (acquire s).
Proof.
  intros Hs Hl.
  destruct (getInternalRoutesManifest options) as [supplier|] eqn:Hn.
  - intros _. unfold acquireManifest. rewrite Hn. apply stable_bind.
    + apply stable_call. now apply Hs.
    + intros [m|] _ _; [|apply stable_ret].
      now intros t t'.
  - destruct (routesManifest s) as [m|] eqn:Hc.
    + rewrite (acquire_cached s m Hn Hc). cbn [fst snd]. rewrite Hc.
      intros Hc'. now rewrite (acquire_cached s' m Hn Hc').
    + rewrite (acquire_load s Hn Hc).
      destruct (fst (getRoutesManifest distFolder (world s)))
        as [m|e] eqn:Hw; cbn [fst snd routesManifest]; intros Hc'.
      * now rewrite (acquire_cached s' m Hn Hc').
      * rewrite (acquire_load s' Hn Hc'), (Hl (world s') (world s)).
        now rewrite Hw.
Qed.

Lemma run_eq request s :
  run request s =
  match acquire s with
  | (Normal (inl response), s1) => (Normal (Responded response), s1)
  | (Normal (inr manifest), s1) =>
      dispatchRoutes parseURL options manifest request s1
  | (Abrupt e, s1) => (Abrupt e, s1)
  end.
Proof.
  unfold handler, bind. now destruct (acquire s) as [[[r|m]|e] s1].
Qed.

Lemma run_routesManifest request s :
  routesManifest (snd (run request s)) = routesManifest (snd (acquire s)).
Proof.
  rewrite run_eq. destruct (acquire s) as [[[r|m]|e] s1]; try reflexivity.
  apply dispatchRoutes_routesManifest.
Qed.

(** The slot of the request is written before anything reads the request:
    a dispatch does not depend on what the slot held. *)
Lemma dispatchRoutes_same_request manifest request request' s :
  method request' = method request ->
  url request' = url request ->
  dispatchRoutes parseURL options manifest request' s
  = dispatchRoutes parseURL options manifest request s.
Proof.
  destruct request as [verb address slot], request' as [verb' address' slot'].
  simpl. intros -> ->. rewrite !dispatchRoutes_dispatched.
  unfold dispatched, isGetOrHead. cbn [method url].
  match goal with
  | |- match ?d with _ => _ end = _ => destruct d as [[[] route]|]
  end; reflexivity.
Qed.

(** *** C9 *)

(** C9. When the manifest suppliers, getHtml, getApiRoute, the handlers of
    the resolved modules and the error-reporting hook complete in a way
    that does not depend on the state of the world, a second dispatch of a
    request with the same method and url (the same request as the first
    dispatch left it, or a copy of it), run in the store the first one left
    (with the manifest it cached), completes as the first one did. *)
Theorem dispatch_twice request request' s :
  (∀ supplier, getInternalRoutesManifest options = Some supplier ->
               deterministic (supplier distFolder)) ->
  deterministic (getRoutesManifest distFolder) ->
  (∀ request route, deterministic (getHtml options request route)) ->
  (∀ route, deterministic (getApiRoute options route)) ->
  (∀ route w (exports : gmap string (RouteHandler World)) verb
     (routeHandler : RouteHandler World) request params,
      fst (getApiRoute options route w) = Normal (ApiModule exports) ->
      exports !! verb = Some routeHandler ->
      deterministic (routeHandler request params)) ->
  (∀ error, deterministic (logApiRouteExecutionError options error)) ->
  method request' = method request ->
  url request' = url request ->
  fst (run request' (snd (run request s))) = fst (run request s).
Proof.
  intros Hs Hl Hh Hg Hm He Hverb Hurl.
  assert (Hagain : fst (acquire (snd (run request s))) = fst (acquire s)).
  { apply acquire_again; [assumption..|]. apply run_routesManifest. }
  rewrite (run_eq request s) at 2. rewrite (run_eq request' (snd _)).
  destruct (acquire (snd (run request s))) as [o' s1'],
           (acquire s) as [o s1].
  cbn [fst] in Hagain. subst o'.
  destruct o as [[response|manifest]|e]; try reflexivity.
  rewrite (dispatchRoutes_same_request _ _ _ _ Hverb Hurl).
  now apply dispatchRoutes_stable.
Qed.

End Properties.

(** ** The properties on the sample application *)

Section OnTheSample.

Import Sample.

Lemma missing_manifest_is_404_witness :
  fst (serve notSetUp (get "/") warm)
  = Normal (mkResponse "No routes manifest found" 404 text_plain)
  ∧ calls (snd (serve notSetUp (get "/") warm))
    = calls warm ++ [CallGetInternalRoutesManifest "dist"]
  ∧ hookCalls (calls (snd (serve notSetUp (get "/") warm)))
    = hookCalls (calls warm)
  ∧ routesManifest (snd (serve notSetUp (get "/") warm))
    = routesManifest warm.
Proof.
  eapply (missing_manifest_is_404 parseURL loadManifest "dist" notSetUp);
    reflexivity.
Defined.

Lemma html_route_is_served_witness :
  fst (serve production (get "/") fresh)
  = Normal (mkResponse "<h1>Home</h1>" 200 text_html).
Proof.
  eapply (html_route_is_served parseURL loadManifest "dist" production
            (get "/") fresh manifest _ indexRoute);
    [reflexivity..|discriminate].
Defined.

Lemma empty_html_is_not_found_witness :
  fst (serve production (get "/empty") fresh)
  = Normal (mkResponse "Not found" 404 text_plain).
Proof.
  refine (proj1 (empty_html_is_not_found parseURL loadManifest "dist"
                   production (get "/empty") fresh manifest
                   (mkStore [] (Some manifest)
                      [CallGetRoutesManifest "dist"])
                   emptyRoute _ _ _));
    [reflexivity|left; split; reflexivity|reflexivity].
Defined.

Lemma missing_module_is_405_witness :
  fst (serve production (send "POST" "/missing") fresh)
  = Normal (mkResponse "Method not allowed" 405 text_plain)
  ∧ calls (snd (serve production (send "POST" "/missing") fresh))
    = [CallGetRoutesManifest "dist"; CallGetApiRoute missingRoute].
Proof.
  eapply (missing_module_is_405 parseURL loadManifest "dist" production
            (send "POST" "/missing") fresh manifest
            (mkStore [] (Some manifest) [CallGetRoutesManifest "dist"])
            missingRoute);
    [reflexivity|left; reflexivity|reflexivity|reflexivity].
Defined.

(** C2, refuted: [/missing] matches a descriptor of apiRoutes whose module
    file is absent, getApiRoute resolves to null, and the answer is not a
    404. *)
Lemma getApiRoute_null_is_not_404 :
  firstMatch "/missing" (apiRoutes manifest) = Some missingRoute
  ∧ fst (getApiRoute production missingRoute []) = Normal ApiNull
  ∧ fst (serve production (send "POST" "/missing") fresh)
    = Normal (mkResponse "Method not allowed" 405 text_plain)
  ∧ ¬ ∃ response : ExpoResponse,
        fst (serve production (send "POST" "/missing") fresh)
        = Normal response
        ∧ status response = 404.
Proof.
  repeat split. intros (response & H & Hs). vm_compute in H.
  injection H as <-. discriminate Hs.
Qed.

Lemma handler_fault_is_500_witness :
  hookCalls (calls (snd (serve production (send "POST" "/users/42") fresh)))
  = [ErrorInstance "database is down"]
  ∧ fst (serve production (send "POST" "/users/42") fresh)
    = Normal (mkResponse "Internal server error" 500 text_plain).
Proof.
  destruct (handler_fault_is_500 parseURL loadManifest "dist" production
              (send "POST" "/users/42") fresh manifest
              (mkStore [] (Some manifest) [CallGetRoutesManifest "dist"])
              userRoute usersModule
              (fun _ _ w => (Abrupt (ErrorInstance "database is down"), w))
              (ErrorInstance "database is down"))
    as [Herror _]; [reflexivity|left; reflexivity|reflexivity..|].
  destruct (Herror eq_refl) as [Hhook Hresponse].
  split; [exact Hhook|exact (Hresponse eq_refl)].
Defined.

(** C3, refuted: the PUT handler of [/users/[id]] raises a value that is
    not an instance of Error, and the hook is not invoked. *)
Lemma thrown_value_is_not_reported :
  firstMatch "/users/42" (apiRoutes manifest) = Some userRoute
  ∧ (∃ routeHandler : RouteHandler Console,
        usersModule !! "PUT" = Some routeHandler
        ∧ ∀ request params w,
            fst (routeHandler request params w)
            = Abrupt (OtherValue "redirect"))
  ∧ hookCalls (calls (snd (serve production (send "PUT" "/users/42") fresh)))
    = []
  ∧ fst (serve production (send "PUT" "/users/42") fresh)
    = Normal (mkResponse "Internal server error" 500 text_plain).
Proof.
  split; [reflexivity|]. split; [|split; reflexivity].
  eexists. split; [reflexivity|]. reflexivity.
Qed.

Lemma production_returns :
  (∀ supplier, getInternalRoutesManifest production = Some supplier ->
               returns (supplier "dist"))
  ∧ returns (loadManifest "dist")
  ∧ (∀ request route, returns (getHtml production request route))
  ∧ (∀ route, returns (getApiRoute production route))
  ∧ (∀ error, returns (logApiRouteExecutionError production error)).
Proof.
  split; [discriminate|]. split; [intros w; simpl; eauto|].
  split; [|split].
  - intros request route w. simpl. unfold staticHtml.
    repeat case_match; eauto.
  - intros route w. simpl. unfold loadModule. case_match; eauto.
  - intros error w. simpl. eauto.
Defined.

Lemma production_answers :
  ∀ route w (exports : gmap string (RouteHandler Console)) verb
    (routeHandler : RouteHandler Console),
    fst (getApiRoute production route w) = Normal (ApiModule exports) ->
    exports !! verb = Some routeHandler -> answers routeHandler.
Proof.
  intros route w exports verb routeHandler.
  simpl. unfold loadModule. case_match; [|discriminate].
  intros [= <-]. unfold usersModule.
  rewrite !lookup_insert, lookup_singleton.
  repeat case_decide; try discriminate;
    intros [= <-]; intros request params w1 value; simpl;
    try discriminate.
  intros [= <-]. eauto.
Defined.

Lemma dispatch_ends_with_a_response_witness :
  ∃ (response : ExpoResponse) s',
    serve production (send "POST" "/users/42") fresh
    = (Normal (Responded response), s').
Proof.
  destruct production_returns as (Hs & Hl & Hh & Hg & He).
  exact (dispatch_ends_with_a_response parseURL loadManifest "dist"
           production (send "POST" "/users/42") fresh Hs Hl Hh Hg He
           production_answers).
Defined.

(** C1, refuted. When getHtml raises, the exception leaves the dispatcher.
    And when every capability returns and the matched handler returns
    without a response (it resolves to undefined), the dispatch resolves
    to that value and not to a response. *)
Lemma dispatch_without_a_response :
  (fst (serve brokenDisk (get "/") fresh) = Abrupt (ErrorInstance "EACCES")
   ∧ ¬ ∃ response : ExpoResponse,
         fst (serve brokenDisk (get "/") fresh) = Normal response)
  ∧ (fst (serve silent (get "/users/42") fresh)
     = Normal (NotAResponse "undefined")
     ∧ ¬ ∃ response : ExpoResponse,
           fst (serve silent (get "/users/42") fresh) = Normal response).
Proof.
  split; (split; [reflexivity|]); now intros (response & H).
Qed.

Lemma first_match_wins_witness :
  firstMatch "/users/42" (apiRoutes overlapping) = Some userRoute
  ∧ (∃ evs,
        calls (snd (serve development (get "/users/42") fresh))
        = [CallGetInternalRoutesManifest "dist"; CallGetApiRoute userRoute]
          ++ evs
        ∧ Forall (fun ev => ∀ r, routeOf ev = Some r -> r = userRoute) evs)
  ∧ serve development (get "/users/42") fresh
    = dispatchRoutes parseURL development
        (withRoutes Api [userRoute] overlapping) (get "/users/42")
        (mkStore [] (Some overlapping)
           [CallGetInternalRoutesManifest "dist"]).
Proof.
  destruct (first_match_wins parseURL loadManifest "dist" development Api
              (get "/users/42") fresh overlapping
              (mkStore [] (Some overlapping)
                 [CallGetInternalRoutesManifest "dist"])
              [] userRoute [] catchAllApiRoute [])
    as ((d & Hfirst & Hcut & Hr1) & Hcalls & _ & Hrun); [reflexivity..|].
  split; [|split].
  - rewrite (Hr1 (List.Forall_nil _)) in Hfirst. exact Hfirst.
  - exact (proj2 (Hcalls Api userRoute eq_refl)).
  - exact Hrun.
Defined.



Lemma method_gates_html_only_witness :
  (∀ routes,
      serve production (send "POST" "/") fresh
      = dispatchRoutes parseURL production
          (withRoutes Html routes manifest) (send "POST" "/")
          (mkStore [] (Some manifest) [CallGetRoutesManifest "dist"]))
  ∧ fst (serve production (send "POST" "/") fresh)
    = Normal (mkResponse "<h1>Lost</h1>" 404 text_html).
Proof.
  destruct (method_gates_html_only parseURL loadManifest "dist" production
              (send "POST" "/") fresh manifest
              (mkStore [] (Some manifest) [CallGetRoutesManifest "dist"])
              eq_refl)
    as (Hhtml & _ & HnotFound).
  destruct (Hhtml eq_refl) as (Hpasses & Hany & _).
  split; [exact Hany|].
  destruct (HnotFound notFoundRoute Hpasses eq_refl eq_refl) as [_ Hbody].
  apply Hbody; [reflexivity|discriminate].
Defined.

Lemma production_deterministic :
  (∀ supplier, getInternalRoutesManifest production = Some supplier ->
               deterministic (supplier "dist"))
  ∧ deterministic (loadManifest "dist")
  ∧ (∀ request route, deterministic (getHtml production request route))
  ∧ (∀ route, deterministic (getApiRoute production route))
  ∧ (∀ route w (exports : gmap string (RouteHandler Console)) verb
       (routeHandler : RouteHandler Console) request params,
        fst (getApiRoute production route w) = Normal (ApiModule exports) ->
        exports !! verb = Some routeHandler ->
        deterministic (routeHandler request params))
  ∧ (∀ error, deterministic (logApiRouteExecutionError production error)).
Proof.
  split; [discriminate|]. split; [now intros w w'|].
  split; [|split; [|split; [|now intros error w w']]].
  - intros request route w w'. simpl. unfold staticHtml.
    repeat case_match; reflexivity.
  - intros route w w'. simpl. unfold loadModule. case_match; reflexivity.
  - intros route w exports verb routeHandler request params.
    simpl. unfold loadModule. case_match; [|discriminate].
    intros [= <-]. unfold usersModule.
    rewrite !lookup_insert, lookup_singleton.
    repeat case_decide; try discriminate;
      intros [= <-]; intros w1 w2; reflexivity.
Defined.

(** The second request is the first one as its dispatch left it, with the
    url attached. *)
Lemma dispatch_twice_witness :
  fst (serve production
         (fst (updateRequestWithConfig parseURL (get "/users/42") userRoute))
         (snd (serve production (get "/users/42") fresh)))
  = fst (serve production (get "/users/42") fresh).
Proof.
  destruct production_deterministic as (Hs & Hl & Hh & Hg & Hm & He).
  exact (dispatch_twice parseURL loadManifest "dist" production
           (get "/users/42")
           (fst (updateRequestWithConfig parseURL (get "/users/42") userRoute))
           fresh Hs Hl Hh Hg Hm He eq_refl eq_refl).
Defined.

End OnTheSample.

(** ** More properties of the dispatcher *)

Section Dispatching.

Context {World : Type}.
Variable parseURL : string -> URL.
Variable getRoutesManifest : string -> Cap World ExpoRoutesManifestV1.
Variable distFolder : string.
Variable options : Options World.

Local Abbreviation pathOf request := (pathname (parseURL (url request))).
Local Abbreviation updated request route :=
  (updateRequestWithConfig parseURL request route).
Local Abbreviation run request :=
  (handler parseURL getRoutesManifest distFolder options request).
Local Abbreviation acquire :=
  (acquireManifest getRoutesManifest distFolder options).

(** *** The calls of a dispatch, one by one *)

Lemma serveApi_trace request route s :
  ∃ tail,
    calls (snd (serveApi parseURL options request route s))
    = calls s ++ CallGetApiRoute route :: tail
    ∧ apiTail route (fst (updated request route))
        (snd (updated request route)) tail.
Proof.
  destruct (fst (getApiRoute options route (world s))) as [func|e] eqn:Hf.
  - destruct func as [|r|exports].
    + rewrite (serveApi_no_handler parseURL options _ _ _ _ Hf) by easy.
      exists []. split; [reflexivity|now left].
    + unfold serveApi, bind. rewrite call_eq, Hf. exists [].
      split; [reflexivity|now left].
    + destruct (exports !! method request) as [routeHandler|] eqn:Hh.
      * rewrite (serveApi_handler parseURL options _ _ _ _ _ Hf Hh).
        unfold try_catch. rewrite call_eq.
        destruct (fst (routeHandler _ _ _)) as [r|error].
        { eexists [_]. cbn [snd calls afterGetApiRoute].
          rewrite <- app_assoc. split; [reflexivity|]. right. now left. }
        unfold bind. destruct (instanceof_Error error) eqn:Hi.
        { rewrite call_eq. eexists [_; _]. split.
          - destruct (fst (logApiRouteExecutionError _ _ _));
              cbn [ret snd calls afterGetApiRoute];
              now rewrite <- !app_assoc.
          - right. right. exists error. now split. }
        { eexists [_]. cbn [ret snd calls afterGetApiRoute].
          rewrite <- app_assoc. split; [reflexivity|]. right. now left. }
      * rewrite (serveApi_no_handler parseURL options _ _ _ _ Hf) by easy.
        exists []. split; [reflexivity|now left].
  - unfold serveApi, bind. rewrite call_eq, Hf. exists [].
    split; [reflexivity|now left].
Qed.

Lemma dispatchRoutes_trace manifest request s :
  ∃ evs,
    calls (snd (dispatchRoutes parseURL options manifest request s))
    = calls s ++ evs
    ∧ dispatchTrace parseURL request evs.
Proof.
  rewrite dispatchRoutes_dispatched.
  destruct (dispatched parseURL manifest request) as [[[] route]|];
    cbn [serveRoute].
  - rewrite serveHtml_calls. eexists. split; [reflexivity|].
    right. left. now exists route.
  - destruct (serveApi_trace request route s) as (tail & Hc & Ht).
    eexists. split; [exact Hc|]. right. right. now exists route, tail.
  - rewrite serveHtml_calls. eexists. split; [reflexivity|].
    right. left. now exists route.
  - exists []. split; [now rewrite app_nil_r|now left].
Qed.

Lemma acquire_trace s :
  ∃ acq, calls (snd (acquire s)) = calls s ++ acq
         ∧ acquireTrace distFolder acq.
Proof.
  unfold acquireManifest.
  destruct (getInternalRoutesManifest options) as [supplier|].
  - unfold bind. rewrite call_eq.
    destruct (fst (supplier distFolder (world s))) as [[m|]|e];
      (eexists; split; [reflexivity|right; now left]).
  - unfold bind. cbn [read_routesManifest].
    destruct (routesManifest s) as [m|].
    + exists []. split; [now rewrite app_nil_r|now left].
    + rewrite call_eq.
      destruct (fst (getRoutesManifest distFolder (world s))) as [m|e];
        (eexists; split; [reflexivity|right; now right]).
Qed.

(** The calls of one dispatch: those of the first statement, then those of
    the loops. *)
Lemma run_trace request s :
  ∃ acq evs,
    calls (snd (run request s)) = calls s ++ acq ++ evs
    ∧ acquireTrace distFolder acq
    ∧ dispatchTrace parseURL request evs.
Proof.
  destruct (acquire_trace s) as (acq & Hacq & Hshape).
  rewrite run_eq. destruct (acquire s) as [[[r|manifest]|e] s1];
    cbn [snd] in *.
  - exists acq, []. rewrite app_nil_r. repeat split; try assumption.
    now left.
  - destruct (dispatchRoutes_trace manifest request s1) as (evs & He & Hd).
    exists acq, evs. rewrite He, Hacq, app_assoc. now repeat split.
  - exists acq, []. rewrite app_nil_r. repeat split; try assumption.
    now left.
Qed.

Lemma dispatched_None manifest request :
  htmlPasses parseURL manifest request ->
  firstMatch (pathOf request) (apiRoutes manifest) = None ->
  firstMatch (pathOf request) (notFoundRoutes manifest) = None ->
  dispatched parseURL manifest request = None.
Proof.
  intros [Hm|Hf] Ha Hn; unfold dispatched.
  - now rewrite Hm, Ha, Hn.
  - rewrite Hf, Ha, Hn. now destruct (isGetOrHead request).
Qed.

Lemma run_served request s manifest s1 category route :
  acquire s = (Normal (inr manifest), s1) ->
  dispatched parseURL manifest request = Some (category, route) ->
  run request s = serveRoute parseURL options category request route s1.
Proof.
  intros Ha Hd. rewrite run_eq, Ha, dispatchRoutes_dispatched.
  now rewrite Hd.
Qed.

Lemma loads_app evs evs' : loads (evs ++ evs') = (loads evs + loads evs')%nat.
Proof. unfold loads. now rewrite List.filter_app, length_app. Qed.

Lemma dispatchTrace_loads request evs :
  dispatchTrace parseURL request evs -> loads evs = 0%nat.
Proof.
  intros [->|[(route & ->)|(route & tail & -> & [->|[->|(e & _ & ->)]])]];
    reflexivity.
Qed.

Lemma dispatchTrace_hookCalls request evs :
  dispatchTrace parseURL request evs ->
  hookCalls evs = []
  ∨ ∃ error, instanceof_Error error = true ∧ hookCalls evs = [error].
Proof.
  intros [->|[(route & ->)|(route & tail & -> & [->|[->|(e & He & ->)]])]];
    try (now left).
  right. now exists e.
Qed.

Lemma acquireTrace_hookCalls evs :
  acquireTrace distFolder evs -> hookCalls evs = [].
Proof. now intros [->|[->| ->]]. Qed.

(** *** Answers that the claims leave out *)

(** X1. When no pattern of the three sequences matches (the loop over
    htmlRoutes skipped or without a match), the answer is the default 404
    with the plain-text body "Not found", and nothing is called: the store
    is the one the manifest acquisition left. *)
Theorem no_match_is_default_404 request s manifest s1 :
  acquire s = (Normal (inr manifest), s1) ->
  htmlPasses parseURL manifest request ->
  firstMatch (pathOf request) (apiRoutes manifest) = None ->
  firstMatch (pathOf request) (notFoundRoutes manifest) = None ->
  run request s
  = (Normal (Responded (mkResponse "Not found" 404 text_plain)), s1).
Proof.
  intros Ha Hp Hapi Hn. rewrite run_eq, Ha, dispatchRoutes_dispatched.
  now rewrite (dispatched_None _ _ Hp Hapi Hn).
Qed.

(** X2. When the module of the matched API route has no handler under the
    method of the request, the answer is 405 with the plain-text body
    "Method not allowed"; getApiRoute is the only call, so that neither a
    handler nor the hook runs. *)
Theorem missing_method_is_405 request s manifest s1 route
    (exports : gmap string (RouteHandler World)) :
  acquire s = (Normal (inr manifest), s1) ->
  htmlPasses parseURL manifest request ->
  firstMatch (pathOf request) (apiRoutes manifest) = Some route ->
  fst (getApiRoute options route (world s1)) = Normal (ApiModule exports) ->
  exports !! method request = None ->
  run request s
  = (Normal (Responded (mkResponse "Method not allowed" 405 text_plain)),
     mkStore (snd (getApiRoute options route (world s1)))
       (routesManifest s1) (calls s1 ++ [CallGetApiRoute route])).
Proof.
  intros Ha Hp Hf Hm Hh.
  rewrite (run_served _ _ _ _ _ _ Ha (dispatched_Api _ _ _ _ Hp Hf)).
  cbn [serveRoute].
  now rewrite (serveApi_no_handler parseURL options _ _ _ _ Hm).
Qed.

(** X3. A response that getHtml resolves to is returned as it is, for a
    descriptor of htmlRoutes and for one of notFoundRoutes alike: its
    status and headers are not replaced by the defaults of the loop. *)
Theorem html_response_passes_through request s manifest s1 category route
    response :
  acquire s = (Normal (inr manifest), s1) ->
  dispatched parseURL manifest request = Some (category, route) ->
  category ≠ Api ->
  fst (getHtml options (fst (updated request route)) route (world s1))
  = Normal (HtmlResponse response) ->
  fst (run request s) = Normal response.
Proof.
  intros Ha Hd Hc Hr. rewrite (run_served _ _ _ _ _ _ Ha Hd).
  destruct category; [|contradiction|]; cbn [serveRoute];
    now rewrite serveHtml_run, Hr.
Qed.

(** X4. A response that getApiRoute resolves to is returned as it is: no
    handler is looked up, so that the answer is not 405 whatever the
    method, and nothing else is called. *)
Theorem api_response_passes_through request s manifest s1 route response :
  acquire s = (Normal (inr manifest), s1) ->
  htmlPasses parseURL manifest request ->
  firstMatch (pathOf request) (apiRoutes manifest) = Some route ->
  fst (getApiRoute options route (world s1))
  = Normal (ApiResponse response) ->
  run request s
  = (Normal (Responded response),
     mkStore (snd (getApiRoute options route (world s1)))
       (routesManifest s1) (calls s1 ++ [CallGetApiRoute route])).
Proof.
  intros Ha Hp Hf Hr.
  rewrite (run_served _ _ _ _ _ _ Ha (dispatched_Api _ _ _ _ Hp Hf)).
  cbn [serveRoute]. unfold serveApi, bind. now rewrite call_eq, Hr.
Qed.

(** X5. When the handler of the matched API route returns, the dispatcher
    answers with what the handler resolved to, unchanged: its response, and
    as well a value that is no response. The handler was called once, with
    the augmented request and the params of the augmentation, after
    getApiRoute; the hook was not called. *)
Theorem handler_response_is_returned request s manifest s1 route
    (exports : gmap string (RouteHandler World))
    (routeHandler : RouteHandler World) (response : Resolved) :
  let request' := fst (updated request route) in
  let params := snd (updated request route) in
  let w1 := snd (getApiRoute options route (world s1)) in
  acquire s = (Normal (inr manifest), s1) ->
  htmlPasses parseURL manifest request ->
  firstMatch (pathOf request) (apiRoutes manifest) = Some route ->
  fst (getApiRoute options route (world s1)) = Normal (ApiModule exports) ->
  exports !! method request = Some routeHandler ->
  fst (routeHandler request' params w1) = Normal response ->
  run request s
  = (Normal response,
     mkStore (snd (routeHandler request' params w1)) (routesManifest s1)
       (calls s1
        ++ [CallGetApiRoute route; CallRouteHandler route request' params])).
Proof.
  intros request' params w1 Ha Hp Hf Hm Hh Hr.
  rewrite (run_served _ _ _ _ _ _ Ha (dispatched_Api _ _ _ _ Hp Hf)).
  cbn [serveRoute]. rewrite (serveApi_handler parseURL options _ _ _ _ _ Hm Hh).
  fold request' params. unfold try_catch. rewrite call_eq.
  unfold afterGetApiRoute. cbn [world routesManifest calls]. fold w1.
  rewrite Hr. now rewrite <- app_assoc.
Qed.

(** X6. The categories are tried in the order html, api, not-found. A GET or
    HEAD request that matches a descriptor of htmlRoutes is dispatched
    without regard to apiRoutes and notFoundRoutes; a request that is not
    served from htmlRoutes and matches a descriptor of apiRoutes is
    dispatched without regard to notFoundRoutes. *)
Theorem earlier_category_wins request s manifest s1 :
  acquire s = (Normal (inr manifest), s1) ->
  (∀ route,
      isGetOrHead request = true ->
      firstMatch (pathOf request) (htmlRoutes manifest) = Some route ->
      ∀ api notFound,
        run request s
        = dispatchRoutes parseURL options
            (mkManifest (htmlRoutes manifest) api notFound) request s1
        ∧ calls (snd (run request s))
          = calls s1 ++ [CallGetHtml (fst (updated request route)) route])
  ∧ (∀ route,
        htmlPasses parseURL manifest request ->
        firstMatch (pathOf request) (apiRoutes manifest) = Some route ->
        ∀ notFound,
          run request s
          = dispatchRoutes parseURL options
              (mkManifest (htmlRoutes manifest) (apiRoutes manifest)
                 notFound) request s1).
Proof.
  intros Ha. split.
  - intros route Hm Hf api notFound. split.
    + rewrite run_eq, Ha, !dispatchRoutes_dispatched.
      unfold dispatched. cbn [htmlRoutes]. now rewrite Hm, Hf.
    + rewrite (run_served _ _ _ _ _ _ Ha (dispatched_Html _ _ _ _ Hm Hf)).
      apply serveHtml_calls.
  - intros route Hp Hf notFound.
    rewrite run_eq, Ha, !dispatchRoutes_dispatched.
    rewrite (dispatched_Api _ _ _ _ Hp Hf).
    now rewrite (dispatched_Api parseURL (mkManifest _ _ notFound) _ _ Hp Hf).
Qed.

(** *** The manifest cache *)

Local Abbreviation all requests :=
  (dispatchAll parseURL getRoutesManifest distFolder options requests).

Lemma run_cached request s manifest :
  getInternalRoutesManifest options = None ->
  routesManifest s = Some manifest ->
  loads (calls (snd (run request s))) = loads (calls s)
  ∧ routesManifest (snd (run request s)) = Some manifest.
Proof.
  intros Hn Hc. rewrite run_eq, (acquire_cached _ _ _ _ _ Hn Hc).
  destruct (dispatchRoutes_trace manifest request s) as (evs & He & Hd).
  rewrite He, loads_app, (dispatchTrace_loads _ _ Hd).
  rewrite dispatchRoutes_routesManifest. split; [lia|assumption].
Qed.

Lemma all_cached requests s manifest :
  getInternalRoutesManifest options = None ->
  routesManifest s = Some manifest ->
  loads (calls (all requests s)) = loads (calls s)
  ∧ routesManifest (all requests s) = Some manifest.
Proof.
  intros Hn. revert s.
  induction requests as [|request rest IH]; intros s Hc; [easy|].
  cbn [dispatchAll].
  destruct (run_cached request s manifest Hn Hc) as [Hl Hc'].
  destruct (IH _ Hc') as [Hl' Hc'']. split; [congruence|assumption].
Qed.

Lemma run_loading request s :
  getInternalRoutesManifest options = None ->
  routesManifest s = None ->
  loads (calls (snd (run request s))) = S (loads (calls s)).
Proof.
  intros Hn Hc. rewrite run_eq, (acquire_load _ _ _ _ Hn Hc).
  destruct (fst (getRoutesManifest distFolder (world s))) as [manifest|e].
  - match goal with
    | |- context [dispatchRoutes _ _ _ _ ?s1] =>
        destruct (dispatchRoutes_trace manifest request s1)
          as (evs & Hevs & Hd)
    end.
    rewrite Hevs. cbn [calls].
    rewrite !loads_app, (dispatchTrace_loads _ _ Hd). cbn. lia.
  - cbn [snd calls]. rewrite loads_app. cbn. lia.
Qed.

(** X7. Without a manifest supplier, a load of the manifest file that raises is
    not cached: the exception leaves the dispatcher, nothing else is called
    and routesManifest stays unset, so that the next dispatch loads the
    file again. *)
Theorem failed_load_is_not_cached request s e :
  getInternalRoutesManifest options = None ->
  routesManifest s = None ->
  fst (getRoutesManifest distFolder (world s)) = Abrupt e ->
  run request s
  = (Abrupt e,
     mkStore (snd (getRoutesManifest distFolder (world s))) None
       (calls s ++ [CallGetRoutesManifest distFolder]))
  ∧ ∀ request',
      loads (calls (snd (run request' (snd (run request s)))))
      = S (S (loads (calls s))).
Proof.
  intros Hn Hc He.
  assert (Hrun : run request s
                 = (Abrupt e,
                    mkStore (snd (getRoutesManifest distFolder (world s)))
                      None (calls s ++ [CallGetRoutesManifest distFolder])))
    by now rewrite run_eq, (acquire_load _ _ _ _ Hn Hc), He.
  split; [exact Hrun|]. intros request'.
  rewrite (run_loading request') by (now rewrite ?Hrun).
  now rewrite (run_loading request).
Qed.

(** X8. Without a manifest supplier and with a manifest file that loads, any
    number of requests dispatched one after the other from the initial
    store load the file exactly once, at the first request, and the
    manifest is cached from then on. *)
Theorem manifest_is_loaded_once requests s :
  getInternalRoutesManifest options = None ->
  returns (getRoutesManifest distFolder) ->
  routesManifest s = None ->
  requests ≠ [] ->
  loads (calls (all requests s)) = S (loads (calls s))
  ∧ is_Some (routesManifest (all requests s)).
Proof.
  intros Hn Hl Hc Hne. destruct requests as [|request rest]; [easy|].
  cbn [dispatchAll].
  destruct (Hl (world s)) as (manifest & w & Hw).
  assert (Hfirst : loads (calls (snd (run request s))) = S (loads (calls s))
                   ∧ routesManifest (snd (run request s)) = Some manifest).
  { rewrite run_eq, (acquire_load _ _ _ _ Hn Hc), Hw. cbn [fst snd].
    destruct (dispatchRoutes_trace manifest request
                (mkStore w (Some manifest)
                   (calls s ++ [CallGetRoutesManifest distFolder])))
      as (evs & Hevs & Hd).
    rewrite Hevs, dispatchRoutes_routesManifest. cbn [calls routesManifest].
    rewrite !loads_app, (dispatchTrace_loads _ _ Hd). cbn.
    split; [lia|reflexivity]. }
  destruct Hfirst as [Hload Hcached].
  destruct (all_cached rest _ manifest Hn Hcached) as [Hl' Hc'].
  split; [congruence|]. rewrite Hc'. eauto.
Qed.

(** X9. With a manifest supplier that yields a manifest, the dispatch runs on
    that manifest, whatever routesManifest held; the manifest replaces it,
    and the manifest file is not loaded. *)
Theorem supplier_replaces_cache request s supplier manifest :
  getInternalRoutesManifest options = Some supplier ->
  fst (supplier distFolder (world s)) = Normal (Some manifest) ->
  run request s
  = dispatchRoutes parseURL options manifest request
      (mkStore (snd (supplier distFolder (world s))) (Some manifest)
         (calls s ++ [CallGetInternalRoutesManifest distFolder]))
  ∧ routesManifest (snd (run request s)) = Some manifest
  ∧ loads (calls (snd (run request s))) = loads (calls s).
Proof.
  intros Hs Hm.
  assert (Ha : acquire s
               = (Normal (inr manifest),
                  mkStore (snd (supplier distFolder (world s)))
                    (Some manifest)
                    (calls s ++ [CallGetInternalRoutesManifest distFolder]))).
  { unfold acquireManifest. rewrite Hs. unfold bind.
    now rewrite call_eq, Hm. }
  rewrite run_eq, Ha. split; [reflexivity|]. split.
  - now rewrite dispatchRoutes_routesManifest.
  - destruct (dispatchRoutes_trace manifest request
                (mkStore (snd (supplier distFolder (world s)))
                   (Some manifest)
                   (calls s ++ [CallGetInternalRoutesManifest distFolder])))
      as (evs & Hevs & Hd).
    rewrite Hevs. cbn [calls].
    rewrite !loads_app, (dispatchTrace_loads _ _ Hd). cbn. lia.
Qed.

(** *** Exceptions that leave the dispatcher *)

(** X10. An exception of getHtml, for a descriptor of htmlRoutes or of
    notFoundRoutes, leaves the dispatcher as it is; the error-reporting hook
    is not called for it. *)
Theorem getHtml_error_propagates request s manifest s1 category route e :
  acquire s = (Normal (inr manifest), s1) ->
  dispatched parseURL manifest request = Some (category, route) ->
  category ≠ Api ->
  fst (getHtml options (fst (updated request route)) route (world s1))
  = Abrupt e ->
  fst (run request s) = Abrupt e
  ∧ hookCalls (calls (snd (run request s))) = hookCalls (calls s).
Proof.
  intros Ha Hd Hc He. rewrite (run_served _ _ _ _ _ _ Ha Hd).
  pose proof (acquire_hookCalls _ _ _ _ _ _ Ha) as Hs1.
  destruct category; [|contradiction|]; cbn [serveRoute];
    rewrite serveHtml_run, He; cbn [fst snd calls];
    now rewrite hookCalls_app, Hs1, app_nil_r.
Qed.

(** X11. An exception of getApiRoute leaves the dispatcher as it is: the try
    block starts after the module is resolved. No handler runs and the
    hook is not called. *)
Theorem getApiRoute_error_propagates request s manifest s1 route e :
  acquire s = (Normal (inr manifest), s1) ->
  htmlPasses parseURL manifest request ->
  firstMatch (pathOf request) (apiRoutes manifest) = Some route ->
  fst (getApiRoute options route (world s1)) = Abrupt e ->
  run request s
  = (Abrupt e,
     mkStore (snd (getApiRoute options route (world s1)))
       (routesManifest s1) (calls s1 ++ [CallGetApiRoute route])).
Proof.
  intros Ha Hp Hf He.
  rewrite (run_served _ _ _ _ _ _ Ha (dispatched_Api _ _ _ _ Hp Hf)).
  cbn [serveRoute]. unfold serveApi, bind. now rewrite call_eq, He.
Qed.

(** X12. When the handler raises an instance of Error and the hook that gets it
    raises in turn, the exception of the hook leaves the dispatcher: no 500
    is answered, and the error of the handler is lost. *)
Theorem hook_error_escapes request s manifest s1 route
    (exports : gmap string (RouteHandler World))
    (routeHandler : RouteHandler World) error e :
  let request' := fst (updated request route) in
  let params := snd (updated request route) in
  let w1 := snd (getApiRoute options route (world s1)) in
  let w2 := snd (routeHandler request' params w1) in
  acquire s = (Normal (inr manifest), s1) ->
  htmlPasses parseURL manifest request ->
  firstMatch (pathOf request) (apiRoutes manifest) = Some route ->
  fst (getApiRoute options route (world s1)) = Normal (ApiModule exports) ->
  exports !! method request = Some routeHandler ->
  fst (routeHandler request' params w1) = Abrupt error ->
  instanceof_Error error = true ->
  fst (logApiRouteExecutionError options error w2) = Abrupt e ->
  fst (run request s) = Abrupt e.
Proof.
  intros request' params w1 w2 Ha Hp Hf Hm Hh Herr Hi He.
  rewrite (run_served _ _ _ _ _ _ Ha (dispatched_Api _ _ _ _ Hp Hf)).
  cbn [serveRoute]. rewrite (serveApi_handler parseURL options _ _ _ _ _ Hm Hh).
  fold request' params. unfold try_catch. rewrite call_eq.
  unfold afterGetApiRoute at 1 2. simpl. fold w1. rewrite Herr, Hi.
  unfold bind. rewrite call_eq. simpl. fold w1 w2. now rewrite He.
Qed.

(** *** What one dispatch calls *)

(** X27. An exception of the manifest supplier leaves the dispatcher as it
    is: the supplier is called outside any try block. Nothing else is
    called, no route is tried, and the cached manifest stays as it was. *)
Theorem supplier_error_propagates request s supplier e :
  getInternalRoutesManifest options = Some supplier ->
  fst (supplier distFolder (world s)) = Abrupt e ->
  run request s
  = (Abrupt e,
     mkStore (snd (supplier distFolder (world s))) (routesManifest s)
       (calls s ++ [CallGetInternalRoutesManifest distFolder])).
Proof.
  intros Hs He. unfold handler, acquireManifest. rewrite Hs.
  unfold bind. now rewrite call_eq, He.
Qed.

(** X13. Whatever the request, the manifest and the capabilities do, one
    dispatch asks for the manifest at most once, calls at most one resolver
    (getHtml or getApiRoute, never both), at most one handler and the hook
    at most once. *)
Theorem one_call_per_capability request s :
  ∃ evs,
    calls (snd (run request s)) = calls s ++ evs
    ∧ (length (List.filter isManifestCall evs) <= 1)%nat
    ∧ (length (List.filter isResolverCall evs) <= 1)%nat
    ∧ (length (List.filter isHandlerCall evs) <= 1)%nat
    ∧ (length (hookCalls evs) <= 1)%nat.
Proof.
  destruct (run_trace request s) as (acq & evs & Hc & Ha & Hd).
  exists (acq ++ evs). split; [exact Hc|].
  rewrite !List.filter_app, hookCalls_app, !length_app.
  destruct Ha as [->|[->| ->]];
    destruct Hd
      as [->|[(route & ->)|(route & tail & -> & [->|[->|(e & _ & ->)]])]];
    cbn; lia.
Qed.

(** X14. The hook is only given what a handler raised: values that are instances
    of Error, and only in a dispatch in which a handler was called before. *)
Theorem only_handler_errors_are_reported request s :
  ∃ evs,
    calls (snd (run request s)) = calls s ++ evs
    ∧ Forall (fun error => instanceof_Error error = true) (hookCalls evs)
    ∧ (hookCalls evs ≠ [] ->
       ∃ before route request' params error,
         evs = before ++ [CallRouteHandler route request' params;
                          CallLogApiRouteExecutionError error]).
Proof.
  destruct (run_trace request s) as (acq & evs & Hc & Ha & Hd).
  exists (acq ++ evs). split; [exact Hc|].
  rewrite hookCalls_app, (acquireTrace_hookCalls _ Ha). cbn [app].
  destruct Hd
    as [->|[(route & ->)|(route & tail & -> & [->|[->|(e & He & ->)]])]];
    try (split; [constructor|intros H; now destruct H]).
  split.
  - cbn. constructor; [assumption|constructor].
  - intros _. exists (acq ++ [CallGetApiRoute route]). do 4 eexists.
    now rewrite <- app_assoc.
Qed.

(** X15. Every request that a dispatch hands to getHtml or to a handler is the
    incoming request after augmentation: same method and url, and a parsed
    url attached whose path is the path that was matched. *)
Theorem requests_are_augmented_before_use request s :
  ∃ evs,
    calls (snd (run request s)) = calls s ++ evs
    ∧ Forall (fun ev =>
                ∀ request', requestOf ev = Some request' ->
                  method request' = method request
                  ∧ url request' = url request
                  ∧ ∃ expoUrl, nonStandard request' = Some expoUrl
                               ∧ pathname expoUrl = pathOf request) evs.
Proof.
  assert (Hup : ∀ route,
             method (fst (updated request route)) = method request
             ∧ url (fst (updated request route)) = url request
             ∧ ∃ expoUrl,
                 nonStandard (fst (updated request route)) = Some expoUrl
                 ∧ pathname expoUrl = pathOf request).
  { intros route. unfold updateRequestWithConfig. cbn.
    repeat split. eexists. split; [reflexivity|].
    destruct (exec _ _) as [|[groups|]]; try reflexivity.
    apply fold_setParam_pathname. }
  destruct (run_trace request s) as (acq & evs & Hc & Ha & Hd).
  exists (acq ++ evs). split; [exact Hc|]. apply Forall_app. split.
  - destruct Ha as [->|[->| ->]];
      repeat (apply List.Forall_cons || apply List.Forall_nil); easy.
  - destruct Hd
      as [->|[(route & ->)|(route & tail & -> & [->|[->|(e & _ & ->)]])]];
      repeat (apply List.Forall_cons || apply List.Forall_nil);
      try easy; intros request' [= <-]; apply Hup.
Qed.

End Dispatching.

(** ** More properties of the augmentation *)

Section MoreAugmentation.

Variable parseURL : string -> URL.

Local Abbreviation pathOf request := (pathname (parseURL (url request))).
Local Abbreviation updated request route :=
  (updateRequestWithConfig parseURL request route).

Lemma fold_setParam_other config groups acc name :
  (∀ key, key ∈ groups.*1 -> namedKey_of config key ≠ name) ->
  List.filter (has_name name)
    (searchParams (fst (fold_left (setParam config) groups acc)))
  = List.filter (has_name name) (searchParams (fst acc))
  ∧ snd (fold_left (setParam config) groups acc) !! name = snd acc !! name.
Proof.
  revert acc. induction groups as [|entry groups IH]; intros acc Hother;
    [easy|].
  cbn [fold_left].
  destruct (IH (setParam config acc entry)) as [Hq Hp].
  { intros key Hkey. apply Hother. cbn. now apply elem_of_cons; right. }
  rewrite Hq, Hp. unfold setParam. cbn [fst snd searchParams].
  assert (Hne : name ≠ namedKey_of config (fst entry)).
  { intros ->. apply (Hother (fst entry)); [|reflexivity].
    cbn. apply list_elem_of_here. }
  split.
  - now apply searchParams_set_others.
  - apply lookup_assign_ne. congruence.
Qed.

(** X16. When the pattern does not match the path, or matches without named
    groups, the params are empty and the url attached to the request is the
    parsed url of the request, its query untouched; the slot is set all the
    same, whatever it held. *)
Theorem no_captures_no_params request config :
  (∀ groups,
      exec (namedRegex config) (pathOf request) = ExecMatch (Some groups) ->
      groups = []) ->
  updated request config
  = (mkRequest (method request) (url request)
       (Some (parseURL (url request))), ∅).
Proof.
  intros H. unfold updateRequestWithConfig.
  destruct (exec _ _) as [|[groups|]]; try reflexivity.
  now rewrite (H groups eq_refl).
Qed.

(** X17. A query parameter whose name is not the name any capture group is
    filed under keeps all its values, in their order, and is no param. *)
Theorem other_query_parameters_are_kept request config name :
  (∀ groups key,
      exec (namedRegex config) (pathOf request) = ExecMatch (Some groups) ->
      key ∈ groups.*1 -> namedKey_of config key ≠ name) ->
  snd (updated request config) !! name = None
  ∧ ∃ expoUrl,
      nonStandard (fst (updated request config)) = Some expoUrl
      ∧ List.filter (has_name name) (searchParams expoUrl)
        = List.filter (has_name name) (searchParams (parseURL (url request))).
Proof.
  intros H. unfold updateRequestWithConfig.
  destruct (exec _ _) as [|[groups|]] eqn:He; cbn [fst snd nonStandard];
    try (split; [apply lookup_empty|eexists; split; reflexivity]).
  destruct (fold_setParam_other config groups (parseURL (url request), ∅)
              name (fun key => H groups key eq_refl)) as [Hq Hp].
  split; [rewrite Hp; apply lookup_empty|].
  eexists. split; [reflexivity|exact Hq].
Qed.

Lemma find_member_None key (members : list (string * string)) :
  key ∉ members.*1 ->
  List.find (fun member => String.eqb (fst member) key) members = None.
Proof.
  induction members as [|member members IH]; [reflexivity|].
  intros Hnot. cbn [List.find].
  destruct (String.eqb_spec (fst member) key) as [Heq|_].
  - destruct Hnot. cbn. rewrite Heq. apply list_elem_of_here.
  - apply IH. intros Hin. apply Hnot. cbn. now apply elem_of_cons; right.
Qed.

(** A name that a plain object inherits nothing under. *)
Lemma inheritedKey_undefined key :
  key ≠ "__proto__" -> key ∉ inheritedFunctions.*1 ->
  inheritedKey key = "undefined".
Proof.
  intros Hproto Hnot. unfold inheritedKey.
  destruct (String.eqb_spec key "__proto__") as [Heq|_]; [easy|].
  now rewrite find_member_None.
Qed.

(** The name of an inherited function. *)
Lemma inheritedKey_function key function :
  (key, function) ∈ inheritedFunctions ->
  inheritedKey key = "function " +:+ function +:+ "() { [native code] }".
Proof.
  unfold inheritedFunctions. intros Hin.
  repeat (apply elem_of_cons in Hin as [Hin|Hin];
          [injection Hin as -> ->; reflexivity|]).
  now apply elem_of_nil in Hin.
Qed.

(** X18. The entries of the groups are written in their order, so that the
    last one is never overwritten: the one query pair of its name carries
    its value as a string, the capture or the text "undefined" for a group
    that took no part in the match, and its value is the param of its
    name, unless that name is "__proto__", which is no param. A group
    without an entry in routeKeys is filed under what the routeKeys object
    inherits under the name of the group: under the text of the function
    for the name of a function of Object.prototype, and under "undefined"
    for a name that is not inherited. *)
Theorem last_capture_wins request config groups key value :
  exec (namedRegex config) (pathOf request)
  = ExecMatch (Some (groups ++ [(key, value)])) ->
  (∃ expoUrl,
      nonStandard (fst (updated request config)) = Some expoUrl
      ∧ List.filter (has_name (namedKey_of config key))
          (searchParams expoUrl)
        = [(namedKey_of config key, toUSVString value)])
  ∧ (namedKey_of config key ≠ "__proto__" ->
     snd (updated request config) !! namedKey_of config key = Some value)
  ∧ (∀ function,
        routeKeys config !! key = None ->
        (key, function) ∈ inheritedFunctions ->
        snd (updated request config)
        !! ("function " +:+ function +:+ "() { [native code] }")
        = Some value)
  ∧ (routeKeys config !! key = None ->
     key ≠ "__proto__" -> key ∉ inheritedFunctions.*1 ->
     snd (updated request config) !! "undefined" = Some value).
Proof.
  intros He.
  assert (Hp : namedKey_of config key ≠ "__proto__" ->
               snd (updated request config) !! namedKey_of config key
               = Some value).
  { intros Hproto. unfold updateRequestWithConfig. rewrite He. cbn [snd].
    rewrite fold_setParam_snoc. unfold setParam at 1. cbn [fst snd].
    now apply lookup_assign_eq. }
  split; [|split; [exact Hp|split]].
  - unfold updateRequestWithConfig. rewrite He. cbn [fst nonStandard].
    eexists. split; [reflexivity|].
    rewrite fold_setParam_snoc. unfold setParam at 1.
    cbn [fst snd searchParams]. apply searchParams_set_once.
  - intros function Hnone Hin. unfold namedKey_of in Hp.
    rewrite Hnone, (inheritedKey_function _ _ Hin) in Hp.
    apply Hp. discriminate.
  - intros Hnone Hproto Hnot. unfold namedKey_of in Hp.
    rewrite Hnone, inheritedKey_undefined in Hp by assumption.
    apply Hp. discriminate.
Qed.

(** X19. After augmentation the query-parameter view holds exactly one pair
    for the name of each param: the values that the url carried under that
    name are gone, however many there were. The pair carries the value of
    the param as a string: the capture, or the text "undefined" for a
    param that holds undefined, its group having taken no part in the
    match. *)
Theorem parameters_have_one_value request config name value :
  snd (updated request config) !! name = Some value ->
  ∃ expoUrl,
    nonStandard (fst (updated request config)) = Some expoUrl
    ∧ List.filter (has_name name) (searchParams expoUrl)
      = [(name, toUSVString value)].
Proof.
  unfold updateRequestWithConfig.
  destruct (exec _ _) as [|[groups|]]; cbn [fst snd nonStandard];
    try (rewrite lookup_empty; discriminate).
  intros Hp. eexists. split; [reflexivity|].
  now apply fold_setParam_single.
Qed.

End MoreAugmentation.

(** ** Properties of the manifest file and of the default capabilities *)

Section NodeProperties.

Context {World : Type}.
Variable readJSON : string -> Cap World RawManifest.
Variable newRegExp : string -> Completion RegExp.
Variable path_join : string -> string -> string.
Variable existsSync : string -> World -> bool.
Variable readFileSync : string -> Cap World string.
Variable requireModule : string -> Cap World (ApiRoute World).
Variable importModule : string -> Cap World (ApiRoute World).
Variable console_error : Thrown -> Cap World unit.
Variable parseURL : string -> URL.
Variable distFolder : string.
Variable supplier : option (string -> Cap World (option ExpoRoutesManifestV1)).

Local Abbreviation load path :=
  (getProcessedManifest readJSON newRegExp path).
Local Abbreviation options :=
  (defaultOptions path_join existsSync readFileSync requireModule
     importModule console_error distFolder supplier).
Local Abbreviation loader := (getRoutesManifest readJSON newRegExp path_join).
Local Abbreviation run request :=
  (defaultHandler readJSON newRegExp path_join existsSync readFileSync
     requireModule importModule console_error parseURL distFolder supplier
     request).
Local Abbreviation acquire := (acquireManifest loader distFolder options).
Local Abbreviation pathOf request := (pathname (parseURL (url request))).
Local Abbreviation updated request route :=
  (updateRequestWithConfig parseURL request route).
Local Abbreviation pageFile route :=
  (path_join distFolder (page route +:+ ".html")).
Local Abbreviation moduleFile route := (path_join distFolder (file route)).

(** *** The manifest file *)

Lemma mapCompile_Normal values routes :
  mapCompile newRegExp values = Normal routes ->
  Forall2 (compiledFrom newRegExp) routes values.
Proof.
  revert routes. induction values as [|value rest IH]; intros routes; cbn.
  - intros [= <-]. constructor.
  - unfold compileRoute.
    destruct (newRegExp (rawNamedRegex value)) as [re|e] eqn:Hre;
      [|discriminate].
    destruct (mapCompile newRegExp rest) as [routes'|e]; [|discriminate].
    intros [= <-]. constructor; [|now apply IH].
    now repeat split.
Qed.

Lemma mapCompile_returns values :
  (∃ routes, mapCompile newRegExp values = Normal routes)
  <-> Forall (fun value =>
                ∃ namedRegex,
                  newRegExp (rawNamedRegex value) = Normal namedRegex)
        values.
Proof.
  induction values as [|value rest IH]; cbn.
  - split; [constructor|eauto].
  - unfold compileRoute. split.
    + intros (routes & H).
      destruct (newRegExp (rawNamedRegex value)) as [re|e] eqn:Hre;
        [|discriminate].
      destruct (mapCompile newRegExp rest) as [routes'|e]; [|discriminate].
      constructor; [eauto|]. apply IH. eauto.
    + intros H. apply List.Forall_cons_iff in H as [(re & Hre) Hrest].
      apply IH in Hrest as (routes & Hroutes).
      rewrite Hre, Hroutes. eauto.
Qed.

Lemma compileRoutes_returns routes :
  (∃ compiled, compileRoutes newRegExp routes = Normal compiled)
  <-> allCompile newRegExp routes.
Proof.
  destruct routes as [values|]; cbn.
  - rewrite mapCompile_returns. split.
    + intros H. now exists values.
    + now intros (values' & [= <-] & H).
  - split; [now intros (? & ?)|now intros (? & ? & ?)].
Qed.

(** X20. The manifest that getProcessedManifest returns keeps the routes of the
    file, in each of the three arrays in the order of the file and with the
    page, the file and the routeKeys they have there; only the pattern is
    compiled. The file is read once and nothing else is done to the
    world. *)
Theorem getProcessedManifest_keeps_order path w manifest :
  fst (load path w) = Normal manifest ->
  snd (load path w) = snd (readJSON path w)
  ∧ ∃ raw html api notFound,
      fst (readJSON path w) = Normal raw
      ∧ rawHtmlRoutes raw = Some html
      ∧ rawApiRoutes raw = Some api
      ∧ rawNotFoundRoutes raw = Some notFound
      ∧ Forall2 (compiledFrom newRegExp) (htmlRoutes manifest) html
      ∧ Forall2 (compiledFrom newRegExp) (apiRoutes manifest) api
      ∧ Forall2 (compiledFrom newRegExp) (notFoundRoutes manifest) notFound.
Proof.
  unfold getProcessedManifest.
  destruct (readJSON path w) as [[raw|e] w'] eqn:Hread; cbn [fst snd];
    [|discriminate].
  destruct raw as [[html|] [api|] [notFound|]];
    cbn [rawHtmlRoutes rawApiRoutes rawNotFoundRoutes compileRoutes];
    repeat match goal with
      | |- context [mapCompile newRegExp ?l] =>
          let H := fresh "Hc" in
          destruct (mapCompile newRegExp l) eqn:H
      end; try discriminate.
  intros [= <-]. split; [reflexivity|].
  exists (mkRawManifest (Some html) (Some api) (Some notFound)),
    html, api, notFound.
  cbn. repeat split; try reflexivity; now apply mapCompile_Normal.
Qed.

(** X21. Once the file is read and parsed, getProcessedManifest returns a
    manifest exactly when the three arrays are there and every pattern in
    them compiles; a missing array or one bad pattern makes it raise. *)
Theorem getProcessedManifest_returns_iff path w raw :
  fst (readJSON path w) = Normal raw ->
  (∃ manifest, fst (load path w) = Normal manifest)
  <-> allCompile newRegExp (rawNotFoundRoutes raw)
      ∧ allCompile newRegExp (rawApiRoutes raw)
      ∧ allCompile newRegExp (rawHtmlRoutes raw).
Proof.
  intros Hread. unfold getProcessedManifest.
  destruct (readJSON path w) as [[raw'|e] w']; cbn [fst] in *;
    [|discriminate].
  injection Hread as ->.
  rewrite <- !compileRoutes_returns. split.
  - intros (manifest & H).
    destruct (compileRoutes newRegExp (rawNotFoundRoutes raw)) as [nf|];
      [|discriminate].
    destruct (compileRoutes newRegExp (rawApiRoutes raw)) as [api|];
      [|discriminate].
    destruct (compileRoutes newRegExp (rawHtmlRoutes raw)) as [html|];
      [|discriminate].
    repeat split; eexists; reflexivity.
  - intros ((nf & ->) & (api & ->) & (html & ->)). eexists. reflexivity.
Qed.

(** *** The default capabilities *)

Lemma run_default_served request s manifest s1 category route :
  acquire s = (Normal (inr manifest), s1) ->
  dispatched parseURL manifest request = Some (category, route) ->
  run request s = serveRoute parseURL options category request route s1.
Proof.
  intros Ha Hd. unfold defaultHandler, createRequestHandler.
  exact (run_served _ _ _ _ _ _ _ _ _ _ Ha Hd).
Qed.

Lemma defaultGetHtml_missing request route w :
  existsSync (pageFile route) w = false ->
  getHtml options request route w = (Normal HtmlNull, w).
Proof. intros H. cbn. unfold defaultGetHtml. now rewrite H. Qed.

Lemma defaultGetHtml_there request route w :
  existsSync (pageFile route) w = true ->
  getHtml options request route w
  = (match fst (readFileSync (pageFile route) w) with
     | Normal contents => Normal (HtmlString contents)
     | Abrupt e => Abrupt e
     end, snd (readFileSync (pageFile route) w)).
Proof.
  intros H. cbn. unfold defaultGetHtml. rewrite H. cbn.
  now destruct (readFileSync _ w) as [[contents|e] w'].
Qed.

(** X22. With the default getHtml an answer from htmlRoutes or notFoundRoutes is
    always synthesized: it is the plain-text 404 "Not found", or the
    non-empty contents of the page file as text/html with the status of the
    category, 200 for htmlRoutes and 404 for notFoundRoutes. *)
Theorem default_html_answers request s manifest s1 category route response :
  acquire s = (Normal (inr manifest), s1) ->
  dispatched parseURL manifest request = Some (category, route) ->
  category ≠ Api ->
  fst (run request s) = Normal response ->
  response = mkResponse "Not found" 404 text_plain
  ∨ ∃ contents,
      contents ≠ ""
      ∧ existsSync (pageFile route) (world s1) = true
      ∧ fst (readFileSync (pageFile route) (world s1)) = Normal contents
      ∧ response = mkResponse contents (okStatus category) text_html.
Proof.
  intros Ha Hd Hc. rewrite (run_default_served _ _ _ _ _ _ Ha Hd).
  assert (Hserve : ∀ status,
    fst (serveHtml parseURL options status request route s1)
    = Normal response ->
    response = mkResponse "Not found" 404 text_plain
    ∨ ∃ contents,
        contents ≠ ""
        ∧ existsSync (pageFile route) (world s1) = true
        ∧ fst (readFileSync (pageFile route) (world s1)) = Normal contents
        ∧ response = mkResponse contents status text_html).
  { intros status. rewrite serveHtml_run. cbn [fst].
    destruct (existsSync (pageFile route) (world s1)) eqn:He.
    - rewrite (defaultGetHtml_there _ _ _ He). cbn [fst].
      destruct (fst (readFileSync _ _)) as [contents|e]; [|discriminate].
      cbn [falsy]. destruct (String.eqb_spec contents "") as [->|Hne].
      + intros [= <-]. now left.
      + intros [= <-]. right. now exists contents.
    - rewrite (defaultGetHtml_missing _ _ _ He). cbn.
      intros [= <-]. now left. }
  destruct category; [|contradiction|]; cbn [serveRoute okStatus];
    apply Hserve.
Qed.

(** X23. With the default getHtml, a descriptor of htmlRoutes or notFoundRoutes
    whose page file does not exist is answered with the plain-text 404; the
    file is not read, the world stays as it was. *)
Theorem missing_page_file_is_404 request s manifest s1 category route :
  acquire s = (Normal (inr manifest), s1) ->
  dispatched parseURL manifest request = Some (category, route) ->
  category ≠ Api ->
  existsSync (pageFile route) (world s1) = false ->
  run request s
  = (Normal (Responded (mkResponse "Not found" 404 text_plain)),
     mkStore (world s1) (routesManifest s1)
       (calls s1 ++ [CallGetHtml (fst (updated request route)) route])).
Proof.
  intros Ha Hd Hc He. rewrite (run_default_served _ _ _ _ _ _ Ha Hd).
  destruct category; [|contradiction|]; cbn [serveRoute];
    now rewrite serveHtml_run, (defaultGetHtml_missing _ _ _ He).
Qed.

(** X24. With the default getApiRoute, a matched API route whose module file
    does not exist is answered 405 "Method not allowed" for every method; no
    module is loaded, the world stays as it was. *)
Theorem missing_module_file_is_405 request s manifest s1 route :
  acquire s = (Normal (inr manifest), s1) ->
  htmlPasses parseURL manifest request ->
  firstMatch (pathOf request) (apiRoutes manifest) = Some route ->
  existsSync (moduleFile route) (world s1) = false ->
  run request s
  = (Normal (Responded (mkResponse "Method not allowed" 405 text_plain)),
     mkStore (world s1) (routesManifest s1)
       (calls s1 ++ [CallGetApiRoute route])).
Proof.
  intros Ha Hp Hf He.
  rewrite (run_default_served _ _ _ _ _ _ Ha
             (dispatched_Api _ _ _ _ Hp Hf)).
  cbn [serveRoute].
  assert (Hnull : getApiRoute options route (world s1)
                  = (Normal ApiNull, world s1)).
  { cbn. unfold defaultGetApiRoute. now rewrite He. }
  rewrite (serveApi_no_handler parseURL options request route s1 ApiNull);
    [|now rewrite Hnull|easy|reflexivity].
  unfold afterGetApiRoute. now rewrite Hnull.
Qed.

Lemma endsWith_refl suffix : endsWith suffix suffix = true.
Proof.
  destruct suffix; [reflexivity|]. cbn [endsWith].
  now rewrite String.eqb_refl.
Qed.

Lemma length_append (s t : string) :
  String.length (s +:+ t) = (String.length s + String.length t)%nat.
Proof.
  induction s as [|c s IH]; [reflexivity|].
  change (String.length (String c (s +:+ t))
          = S (String.length s + String.length t)).
  cbn [String.length]. now rewrite IH.
Qed.

(** Behind a stem, only the tail decides, when it is long enough. *)
Lemma endsWith_stem suffix stem tail :
  (String.length suffix <= String.length tail)%nat ->
  endsWith suffix (stem +:+ tail) = endsWith suffix tail.
Proof.
  intros Hlen. induction stem as [|c stem IH]; [reflexivity|].
  assert (Hstep : ∀ s, endsWith suffix (String c s)
                       = String.eqb (String c s) suffix || endsWith suffix s)
    by reflexivity.
  change (String c stem +:+ tail) with (String c (stem +:+ tail)).
  rewrite Hstep, IH.
  destruct (String.eqb_spec (String c (stem +:+ tail)) suffix) as [H|H];
    [|reflexivity].
  apply (f_equal String.length) in H. cbn in H.
  rewrite length_append in H. lia.
Qed.

Lemma endsWith_spec suffix s :
  endsWith suffix s = true <-> ∃ stem, s = stem +:+ suffix.
Proof.
  split.
  - induction s as [|c s IH]; cbn [endsWith].
    + rewrite orb_false_r. intros H%String.eqb_eq. now exists "".
    + intros [H%String.eqb_eq|H]%orb_true_iff.
      * now exists "".
      * destruct (IH H) as (stem & ->). now exists (String c stem).
  - intros (stem & ->). rewrite endsWith_stem by lia. apply endsWith_refl.
Qed.

(** X25. The default getApiRoute loads a module file that exists with require
    exactly when its path ends in ".js" or ".cs", and with a dynamic import
    otherwise: a ".cjs" and a ".mjs" file are imported. *)
Theorem modules_are_loaded_by_extension route w :
  existsSync (moduleFile route) w = true ->
  ((∃ stem, moduleFile route = stem +:+ ".js"
            ∨ moduleFile route = stem +:+ ".cs") ->
   getApiRoute options route w = requireModule (moduleFile route) w)
  ∧ ((¬ ∃ stem, moduleFile route = stem +:+ ".js"
                ∨ moduleFile route = stem +:+ ".cs") ->
     getApiRoute options route w = importModule (moduleFile route) w)
  ∧ ((∃ stem, moduleFile route = stem +:+ ".cjs"
              ∨ moduleFile route = stem +:+ ".mjs") ->
     getApiRoute options route w = importModule (moduleFile route) w).
Proof.
  intros He. cbn [getApiRoute defaultOptions]. unfold defaultGetApiRoute.
  rewrite He. cbn [negb]. unfold isScript. split; [|split].
  - intros (stem & [H|H]).
    + assert (Hjs : endsWith ".js" (moduleFile route) = true)
        by (apply endsWith_spec; eauto).
      now rewrite Hjs, orb_true_r.
    + assert (Hcs : endsWith ".cs" (moduleFile route) = true)
        by (apply endsWith_spec; eauto).
      now rewrite Hcs.
  - intros Hno.
    destruct (endsWith ".cs" (moduleFile route)) eqn:Hcs.
    { apply endsWith_spec in Hcs as (stem & Hs). destruct Hno. eauto. }
    destruct (endsWith ".js" (moduleFile route)) eqn:Hjs; [|reflexivity].
    apply endsWith_spec in Hjs as (stem & Hs). destruct Hno. eauto.
  - intros (stem & [-> | ->]);
      rewrite !endsWith_stem by (cbn; lia); reflexivity.
Qed.

(** X26. With the default getHtml, two requests for the same url whose methods
    are GET or HEAD and that are served from htmlRoutes or notFoundRoutes
    get the same answer, body included, and leave the same world: the
    static file is served without regard to the request. *)
Theorem head_is_served_like_get request request' s manifest s1 category
    route :
  acquire s = (Normal (inr manifest), s1) ->
  isGetOrHead request = true ->
  isGetOrHead request' = true ->
  url request' = url request ->
  dispatched parseURL manifest request = Some (category, route) ->
  category ≠ Api ->
  fst (run request' s) = fst (run request s)
  ∧ world (snd (run request' s)) = world (snd (run request s)).
Proof.
  intros Ha Hm Hm' Hurl Hd Hc.
  assert (Hd' : dispatched parseURL manifest request'
                = Some (category, route)).
  { rewrite <- Hd. unfold dispatched. now rewrite Hm, Hm', Hurl. }
  rewrite (run_default_served _ _ _ _ _ _ Ha Hd),
          (run_default_served _ _ _ _ _ _ Ha Hd').
  destruct category; [|contradiction|]; cbn [serveRoute];
    rewrite !serveHtml_run; cbn [fst snd world getHtml defaultOptions];
    unfold defaultGetHtml; now split.
Qed.

End NodeProperties.

(** ** The further properties on the samples *)

Section MoreOnTheSample.

Import Sample.

Local Abbreviation loaded :=
  (mkStore ([] : Console) (Some manifest) [CallGetRoutesManifest "dist"]).

Lemma no_match_is_default_404_witness :
  handler parseURL loadBare "dist" production (get "/nowhere") fresh
  = (Normal (Responded (mkResponse "Not found" 404 text_plain)),
     mkStore [] (Some bare) [CallGetRoutesManifest "dist"]).
Proof.
  apply (no_match_is_default_404 parseURL loadBare "dist" production
           (get "/nowhere") fresh bare);
    [reflexivity|right; reflexivity|reflexivity|reflexivity].
Defined.

Lemma missing_method_is_405_witness :
  serve production (send "DELETE" "/users/42") fresh
  = (Normal (Responded (mkResponse "Method not allowed" 405 text_plain)),
     mkStore [] (Some manifest)
       [CallGetRoutesManifest "dist"; CallGetApiRoute userRoute]).
Proof.
  apply (missing_method_is_405 parseURL loadManifest "dist" production
           (send "DELETE" "/users/42") fresh manifest loaded userRoute
           usersModule);
    [reflexivity|left; reflexivity|reflexivity..].
Defined.

Lemma html_response_passes_through_witness :
  fst (serve guarded (get "/nowhere") fresh) = Normal toLogin
  ∧ status toLogin = 302.
Proof.
  split; [|reflexivity].
  apply (html_response_passes_through parseURL loadManifest "dist" guarded
           (get "/nowhere") fresh manifest loaded NotFound notFoundRoute
           toLogin);
    [reflexivity|reflexivity|discriminate|reflexivity].
Defined.

Lemma api_response_passes_through_witness :
  serve maintenance (send "DELETE" "/users/42") fresh
  = (Normal (Responded switchedOff),
     mkStore [] (Some manifest)
       [CallGetRoutesManifest "dist"; CallGetApiRoute userRoute]).
Proof.
  apply (api_response_passes_through parseURL loadManifest "dist"
           maintenance (send "DELETE" "/users/42") fresh manifest loaded
           userRoute switchedOff);
    [reflexivity|left; reflexivity|reflexivity..].
Defined.

Lemma handler_response_is_returned_witness :
  fst (serve production (get "/users/42") fresh)
  = Normal (mkResponse "42" 200 [("Content-Type", "application/json")])
  ∧ hookCalls (calls (snd (serve production (get "/users/42") fresh))) = [].
Proof.
  unfold serve, createRequestHandler.
  rewrite (handler_response_is_returned parseURL loadManifest "dist"
             production (get "/users/42") fresh manifest loaded userRoute
             usersModule
             (fun _ params w =>
                (Normal
                   (Responded
                      (mkResponse
                         (match params !! "id" with
                          | Some (Some id) => id
                          | _ => ""
                          end)
                         200 [("Content-Type", "application/json")])), w))
             (Responded
                (mkResponse "42" 200
                   [("Content-Type", "application/json")])));
    [split; reflexivity|reflexivity|right; reflexivity|reflexivity..].
Defined.

(** The catch-all API route put in front changes nothing for [/]. *)
Lemma earlier_category_wins_witness :
  serve production (get "/") fresh
  = dispatchRoutes parseURL production
      (mkManifest (htmlRoutes manifest) [catchAllApiRoute] []) (get "/")
      loaded.
Proof.
  apply (proj1 (earlier_category_wins parseURL loadManifest "dist" production
                  (get "/") fresh manifest loaded eq_refl)
           indexRoute eq_refl eq_refl [catchAllApiRoute] []).
Defined.

Lemma failed_load_is_not_cached_witness :
  handler parseURL noManifest "dist" production (get "/") fresh
  = (Abrupt (ErrorInstance "ENOENT"),
     mkStore [] None [CallGetRoutesManifest "dist"])
  ∧ loads (calls (snd (handler parseURL noManifest "dist" production
                         (get "/about")
                         (snd (handler parseURL noManifest "dist" production
                                 (get "/") fresh)))))
    = 2%nat.
Proof.
  destruct (failed_load_is_not_cached parseURL noManifest "dist" production
              (get "/") fresh (ErrorInstance "ENOENT")
              eq_refl eq_refl eq_refl) as [Hrun Hnext].
  split; [exact Hrun|exact (Hnext (get "/about"))].
Defined.

Lemma manifest_is_loaded_once_witness :
  loads (calls (dispatchAll parseURL loadManifest "dist" production
                  [get "/"; get "/users/42"; send "POST" "/missing"] fresh))
  = 1%nat.
Proof.
  apply (manifest_is_loaded_once parseURL loadManifest "dist" production
           [get "/"; get "/users/42"; send "POST" "/missing"] fresh);
    [reflexivity| |reflexivity|discriminate].
  intros w. now exists manifest, w.
Defined.

Lemma supplier_replaces_cache_witness :
  routesManifest (snd (serve development (get "/users/42") warm))
  = Some overlapping
  ∧ loads (calls (snd (serve development (get "/users/42") warm))) = 0%nat.
Proof.
  apply (supplier_replaces_cache parseURL loadManifest "dist" development
           (get "/users/42") warm (fun _ w => (Normal (Some overlapping), w))
           overlapping eq_refl eq_refl).
Defined.

Lemma getHtml_error_propagates_witness :
  fst (serve brokenDisk (get "/about") fresh)
  = Abrupt (ErrorInstance "EACCES")
  ∧ hookCalls (calls (snd (serve brokenDisk (get "/about") fresh))) = [].
Proof.
  apply (getHtml_error_propagates parseURL loadManifest "dist" brokenDisk
           (get "/about") fresh manifest loaded Html aboutRoute
           (ErrorInstance "EACCES"));
    [reflexivity|reflexivity|discriminate|reflexivity].
Defined.

Lemma getApiRoute_error_propagates_witness :
  serve brokenModules (send "POST" "/users/42") fresh
  = (Abrupt (ErrorInstance "Cannot find module"),
     mkStore [] (Some manifest)
       [CallGetRoutesManifest "dist"; CallGetApiRoute userRoute]).
Proof.
  apply (getApiRoute_error_propagates parseURL loadManifest "dist"
           brokenModules (send "POST" "/users/42") fresh manifest loaded
           userRoute (ErrorInstance "Cannot find module"));
    [reflexivity|left; reflexivity|reflexivity..].
Defined.

Lemma hook_error_escapes_witness :
  fst (serve brokenHook (send "POST" "/users/42") fresh)
  = Abrupt (ErrorInstance "EPIPE").
Proof.
  apply (hook_error_escapes parseURL loadManifest "dist" brokenHook
           (send "POST" "/users/42") fresh manifest loaded userRoute
           usersModule
           (fun _ _ w => (Abrupt (ErrorInstance "database is down"), w))
           (ErrorInstance "database is down") (ErrorInstance "EPIPE"));
    [reflexivity|left; reflexivity|reflexivity..].
Defined.

Lemma supplier_error_propagates_witness :
  serve unreachable (get "/") warm
  = (Abrupt (ErrorInstance "ECONNREFUSED"),
     mkStore [] (Some manifest) [CallGetInternalRoutesManifest "dist"]).
Proof.
  apply (supplier_error_propagates parseURL loadManifest "dist" unreachable
           (get "/") warm
           (fun _ w => (Abrupt (ErrorInstance "ECONNREFUSED"), w))
           (ErrorInstance "ECONNREFUSED"));
    reflexivity.
Defined.

Lemma no_captures_no_params_witness :
  updateRequestWithConfig parseURL (get "/?id=7") indexRoute
  = (mkRequest "GET" "http://expo.dev/?id=7"
       (Some (mkURL "/" [("id", "7")])), ∅).
Proof.
  apply (no_captures_no_params parseURL (get "/?id=7") indexRoute).
  intros groups. discriminate.
Defined.

Lemma other_query_parameters_are_kept_witness :
  ∃ expoUrl,
    nonStandard
      (fst (updateRequestWithConfig parseURL
              (get "/users/42?tab=a&id=7&tab=b") userRoute)) = Some expoUrl
    ∧ List.filter (has_name "tab") (searchParams expoUrl)
      = [("tab", "a"); ("tab", "b")].
Proof.
  apply (other_query_parameters_are_kept parseURL
           (get "/users/42?tab=a&id=7&tab=b") userRoute "tab").
  intros groups key [= <-] Hkey.
  apply list_elem_of_singleton in Hkey. subst key. discriminate.
Defined.

Lemma last_capture_wins_witness :
  snd (updateRequestWithConfig parseURL (get "/users/42") unnamedRoute)
  !! "undefined" = Some (Some "42").
Proof.
  apply (last_capture_wins parseURL (get "/users/42") unnamedRoute [] "id"
           (Some "42") eq_refl).
  - reflexivity.
  - discriminate.
  - apply (bool_decide_unpack _). reflexivity.
Defined.

Lemma parameters_have_one_value_witness :
  ∃ expoUrl,
    nonStandard
      (fst (updateRequestWithConfig parseURL (get "/files?rest=a&rest=b")
              filesRoute)) = Some expoUrl
    ∧ List.filter (has_name "rest") (searchParams (parseURL
                                       (url (get "/files?rest=a&rest=b"))))
      = [("rest", "a"); ("rest", "b")]
    ∧ List.filter (has_name "rest") (searchParams expoUrl)
      = [("rest", "undefined")].
Proof.
  destruct (parameters_have_one_value parseURL (get "/files?rest=a&rest=b")
              filesRoute "rest" None eq_refl) as (expoUrl & Hslot & Hone).
  exists expoUrl. split; [exact Hslot|]. split; [reflexivity|exact Hone].
Defined.

End MoreOnTheSample.

Section OnTheDeployment.

Import Deployed.

Local Abbreviation get := Sample.get.
Local Abbreviation send := Sample.send.

Lemma getProcessedManifest_keeps_order_witness :
  fst (getProcessedManifest readJSON newRegExp "dist/_expo/routes.json" disk)
  = Normal compiled
  ∧ snd (getProcessedManifest readJSON newRegExp "dist/_expo/routes.json"
           disk) = disk
  ∧ ∃ html,
      rawHtmlRoutes rawManifest = Some html
      ∧ Forall2 (compiledFrom newRegExp) (htmlRoutes compiled) html.
Proof.
  split; [reflexivity|].
  destruct (getProcessedManifest_keeps_order readJSON newRegExp
              "dist/_expo/routes.json" disk compiled eq_refl)
    as (Hworld & raw & html & api & notFound & Hraw & Hhtml & _ & _ & H & _).
  split; [exact Hworld|].
  injection Hraw as <-. exists html. split; [exact Hhtml|exact H].
Defined.

Lemma getProcessedManifest_returns_iff_witness :
  ¬ ∃ manifest,
      fst (getProcessedManifest readJSON newRegExp "dist/_expo/routes.json"
             (<[ "dist/_expo/routes.json" := "broken" ]> disk))
      = Normal manifest.
Proof.
  intros H.
  assert (Hread : fst (readJSON "dist/_expo/routes.json"
                         (<[ "dist/_expo/routes.json" := "broken" ]> disk))
                  = Normal brokenManifest) by reflexivity.
  apply (getProcessedManifest_returns_iff readJSON newRegExp
           "dist/_expo/routes.json"
           (<[ "dist/_expo/routes.json" := "broken" ]> disk) brokenManifest
           Hread) in H.
  destruct H as (_ & _ & values & [= <-] & Hall).
  apply List.Forall_cons_iff in Hall as [_ Hall].
  apply List.Forall_cons_iff in Hall as [(re & Hre) _].
  discriminate Hre.
Defined.

Local Abbreviation acquired :=
  (mkStore disk (Some compiled) [CallGetRoutesManifest "dist"]).

Local Abbreviation usersRoute :=
  (mkRouteInfo "/users/[id]" "_expo/functions/users/[id]+api.js"
     Sample.usersPattern {[ "id" := "id" ]}).

Lemma default_html_answers_witness :
  fst (serve (get "/nowhere") start)
  = Normal (mkResponse "<h1>Lost</h1>" 404 text_html)
  ∧ (Responded (mkResponse "<h1>Lost</h1>" 404 text_html)
     = mkResponse "Not found" 404 text_plain
     ∨ ∃ contents,
         contents ≠ ""
         ∧ existsSync "dist/+not-found.html" disk = true
         ∧ fst (readFileSync "dist/+not-found.html" disk) = Normal contents
         ∧ Responded (mkResponse "<h1>Lost</h1>" 404 text_html)
           = mkResponse contents 404 text_html).
Proof.
  split; [reflexivity|].
  apply (default_html_answers readJSON newRegExp path_join existsSync
           readFileSync requireModule importModule console_error
           Sample.parseURL "dist" None (get "/nowhere") start compiled
           acquired NotFound
           (mkRouteInfo "+not-found" "./+not-found.tsx" Sample.anything ∅));
    [reflexivity|reflexivity|discriminate|reflexivity].
Defined.

Lemma missing_page_file_is_404_witness :
  fst (serve (get "/about") start)
  = Normal (mkResponse "Not found" 404 text_plain)
  ∧ world (snd (serve (get "/about") start)) = disk.
Proof.
  unfold serve.
  rewrite (missing_page_file_is_404 readJSON newRegExp path_join existsSync
             readFileSync requireModule importModule console_error
             Sample.parseURL "dist" None (get "/about") start compiled
             acquired Html
             (mkRouteInfo "about" "./about.tsx" (Sample.exactly "/about") ∅));
    [split; reflexivity|reflexivity|reflexivity|discriminate|reflexivity].
Defined.

Lemma missing_module_file_is_405_witness :
  serve (send "POST" "/users/3") start
  = (Normal (Responded (mkResponse "Method not allowed" 405 text_plain)),
     mkStore disk (Some compiled)
       [CallGetRoutesManifest "dist"; CallGetApiRoute usersRoute]).
Proof.
  apply (missing_module_file_is_405 readJSON newRegExp path_join existsSync
           readFileSync requireModule importModule console_error
           Sample.parseURL "dist" None (send "POST" "/users/3") start
           compiled acquired usersRoute);
    [reflexivity|left; reflexivity|reflexivity|reflexivity].
Defined.

Lemma modules_are_loaded_by_extension_witness :
  getApiRoute options usersRoute bundled
  = requireModule "dist/_expo/functions/users/[id]+api.js" bundled.
Proof.
  apply (proj1 (modules_are_loaded_by_extension path_join existsSync
                  readFileSync requireModule importModule console_error
                  "dist" None usersRoute bundled eq_refl)).
  exists "dist/_expo/functions/users/[id]+api". left. reflexivity.
Defined.

Lemma head_is_served_like_get_witness :
  fst (serve (send "HEAD" "/") start) = fst (serve (get "/") start)
  ∧ world (snd (serve (send "HEAD" "/") start))
    = world (snd (serve (get "/") start)).
Proof.
  apply (head_is_served_like_get readJSON newRegExp path_join existsSync
           readFileSync requireModule importModule console_error
           Sample.parseURL "dist" None (get "/") (send "HEAD" "/") start
           compiled acquired Html
           (mkRouteInfo "index" "./index.tsx" (Sample.exactly "/") ∅));
    [reflexivity|reflexivity|reflexivity|reflexivity|reflexivity|
     discriminate].
Defined.

End OnTheDeployment.
